(** * tg_bot_gsheet_sync: the edit-session bot, its validators, the record
      store adapter and the change notifier, as a shallow embedding.

    Python values are embedded as follows.
    - A [str] is the list of its Unicode code points ([list N]); [len] is
      [length], concatenation is [++].  ASCII literals of the source are
      written with [lit].
    - A [dict] is an association list in insertion order (Python dicts keep
      insertion order, and the notifier numbers its lines in that order).
    - Handlers run in a small monad that threads the per-conversation
      [user_data], appends to the trace of outgoing effects, and may raise.
    - The external services (spreadsheet, Drive upload, HTTP delivery, the
      config lists) are replies of an environment record. *)

From Stdlib Require Import String Ascii DecimalString.
From Stdlib Require Import List NArith ZArith Bool Lia Arith.
Import ListNotations.

Set Implicit Arguments.

(* ================================================================== *)
(** ** Python strings *)

Module PyStr.

Definition pychar := N.
Definition pystr := list pychar.

(** An ASCII literal of the source, as code points. *)
Definition lit (s : string) : pystr :=
  map N_of_ascii (list_ascii_of_string s).

Definition eqb (a b : pystr) : bool :=
  if list_eq_dec N.eq_dec a b then true else false.

(** [s.startswith(p)] *)
Fixpoint startswith (p s : pystr) : bool :=
  match p, s with
  | [], _ => true
  | _ :: _, [] => false
  | a :: p', b :: s' => N.eqb a b && startswith p' s'
  end.

(** [sep.join(parts)] *)
Fixpoint join (sep : pystr) (parts : list pystr) : pystr :=
  match parts with
  | [] => []
  | [p] => p
  | p :: rest => p ++ sep ++ join sep rest
  end.

Definition in_range (c : pychar) (r : N * N) : bool :=
  (N.leb (fst r) c && N.leb c (snd r))%bool.

Definition in_ranges (rs : list (N * N)) (c : pychar) : bool :=
  existsb (in_range c) rs.

(** The code points on which [str.isdigit] is true (Numeric_Type Digit or
    Decimal), as closed ranges. *)
Definition digit_ranges : list (N * N) :=
  [(48, 57); (178, 179); (185, 185); (1632, 1641); (1776, 1785);
   (1984, 1993); (2406, 2415); (2534, 2543); (2662, 2671); (2790, 2799);
   (2918, 2927); (3046, 3055); (3174, 3183); (3302, 3311); (3430, 3439);
   (3558, 3567); (3664, 3673); (3792, 3801); (3872, 3881); (4160, 4169);
   (4240, 4249); (4969, 4977); (6112, 6121); (6160, 6169); (6470, 6479);
   (6608, 6618); (6784, 6793); (6800, 6809); (6992, 7001); (7088, 7097);
   (7232, 7241); (7248, 7257); (8304, 8304); (8308, 8313); (8320, 8329);
   (9312, 9320); (9332, 9340); (9352, 9360); (9450, 9450); (9461, 9469);
   (9471, 9471); (10102, 10110); (10112, 10120); (10122, 10130);
   (42528, 42537); (43216, 43225); (43264, 43273); (43472, 43481);
   (43504, 43513); (43600, 43609); (44016, 44025); (65296, 65305);
   (66720, 66729); (68160, 68163); (68912, 68921); (69216, 69224);
   (69714, 69722); (69734, 69743); (69872, 69881); (69942, 69951);
   (70096, 70105); (70384, 70393); (70736, 70745); (70864, 70873);
   (71248, 71257); (71360, 71369); (71472, 71481); (71904, 71913);
   (72016, 72025); (72784, 72793); (73040, 73049); (73120, 73129);
   (92768, 92777); (92864, 92873); (93008, 93017); (120782, 120831);
   (123200, 123209); (123632, 123641); (125264, 125273);
   (127232, 127242); (130032, 130041)]%N.

(** [str.isdigit] on one character. *)
Definition isdigit (c : pychar) : bool := in_ranges digit_ranges c.

(** The code points matched by [\s] in a [str] pattern (the same set as
    [str.isspace]). *)
Definition space_ranges : list (N * N) :=
  [(9, 13); (28, 32); (133, 133); (160, 160); (5760, 5760); (8192, 8202);
   (8232, 8233); (8239, 8239); (8287, 8287); (12288, 12288)]%N.

Definition isspace (c : pychar) : bool := in_ranges space_ranges c.

(** [str(n)] for a non-negative [int]. *)
Definition of_nat (n : nat) : pystr :=
  lit (NilZero.string_of_uint (Nat.to_uint n)).

(** [str(z)] for an [int]. *)
Definition of_Z (z : Z) : pystr :=
  lit (NilZero.string_of_int (Z.to_int z)).

End PyStr.
Import PyStr.

(* ================================================================== *)
(** ** Field validator (bot/telegram_bot.py) *)

Module Validator.

(** The character class [[a-zA-Zа-яА-Я\s\']] of [validate_name]: the
    ranges а-я and А-Я are U+0430..U+044F and U+0410..U+042F. *)
Definition name_class (c : pychar) : bool :=
  in_ranges [(97, 122); (65, 90); (1072, 1103); (1040, 1071)]%N c
  || isspace c
  || N.eqb c 39.

(** [$] without MULTILINE: the end of the string, or just before a
    newline that ends the string. *)
Definition at_dollar (rest : pystr) : bool :=
  match rest with
  | [] => true
  | [10%N] => true
  | _ => false
  end.

(** The rest of [[cls]+$] once one character is consumed: greedily take
    another character of the class, and fall back to [$] here. *)
Fixpoint re_star_dollar (cls : pychar -> bool) (s : pystr) : bool :=
  match s with
  | [] => at_dollar s
  | c :: r => (cls c && re_star_dollar cls r) || at_dollar s
  end.

(** [re.match(r"^[cls]+$", s)] is not [None]. *)
Definition re_match_plus_dollar (cls : pychar -> bool) (s : pystr) : bool :=
  match s with
  | [] => false
  | c :: r => cls c && re_star_dollar cls r
  end.

Definition validate_name (name : pystr) : bool :=
  re_match_plus_dollar name_class name.

Definition valid_types : list pystr :=
  [lit "Places to eat"; lit "Adventures"; lit "Services"].

Definition validate_type (type : pystr) : bool :=
  existsb (PyStr.eqb type) valid_types.

(** The phone / WhatsApp branch of [handle_new_value]. *)
Definition digits_only (new_value : pystr) : pystr :=
  filter isdigit new_value.

Definition normalize_phone (new_value : pystr) : pystr :=
  let d := digits_only new_value in
  if Nat.eqb (length d) 8 then lit "+506" ++ d
  else if Nat.eqb (length d) 11 && startswith (lit "506") d then lit "+" ++ d
  else d.

End Validator.
Import Validator.

(* ================================================================== *)
(** ** Python values, dicts and exceptions *)

(** The values a sheet cell or a card field holds: [None], a [str], or an
    [int] (a cell that [get_all_records] read as a number). *)
Inductive pyval :=
| VNone
| VStr (s : pystr)
| VInt (z : Z).

Definition pyval_eq_dec (a b : pyval) : {a = b} + {a <> b}.
Proof.
  decide equality; [apply (list_eq_dec N.eq_dec) | apply Z.eq_dec].
Defined.

(** [a != b] on values. *)
Definition pyval_neb (a b : pyval) : bool :=
  if pyval_eq_dec a b then false else true.

(** [str(v)], also what an f-string prints for [v]. *)
Definition py_str (v : pyval) : pystr :=
  match v with
  | VNone => lit "None"
  | VStr s => s
  | VInt z => of_Z z
  end.

Inductive exn :=
| KeyError (key : pystr)
| TypeError (what : pystr)
| ClientError (what : pystr).   (* raised by an external client library *)

(** A computation that returns or raises. *)
Definition res (A : Type) : Type := (exn + A)%type.

Module Dict.

Definition dict (V : Type) := list (pystr * V).

Section Ops.
Variable V : Type.

(** [d.get(k)], [None] when absent *)
Fixpoint get (d : dict V) (k : pystr) : option V :=
  match d with
  | [] => None
  | (k', v) :: r => if PyStr.eqb k k' then Some v else get r k
  end.

(** [k in d] *)
Definition mem (d : dict V) (k : pystr) : bool :=
  match get d k with Some _ => true | None => false end.

(** [d[k] = v]: in place when the key exists, appended otherwise *)
Fixpoint set (d : dict V) (k : pystr) (v : V) : dict V :=
  match d with
  | [] => [(k, v)]
  | (k', v') :: r =>
      if PyStr.eqb k k' then (k', v) :: r else (k', v') :: set r k v
  end.

(** [d[k]] *)
Definition item (d : dict V) (k : pystr) : res V :=
  match get d k with
  | Some v => inr v
  | None => inl (KeyError k)
  end.

Definition keys (d : dict V) : list pystr := map fst d.

(** [dict(pairs)] *)
Definition of_pairs (pairs : list (pystr * V)) : dict V :=
  fold_left (fun d kv => set d (fst kv) (snd kv)) pairs [].


End Ops.

End Dict.
Import Dict.

(** A card, a sheet row, a snapshot: field name to value. *)
Definition card := dict pyval.

(* ================================================================== *)
(** ** Effects of the handlers *)

(** The reply markups the bot attaches to its messages. *)
Inductive markup :=
| NoMarkup
| ForceReply
| MainMenu          (* "Show place card" / "Show unfilled places" *)
| EditBar           (* one inline button per editable field *)
| SaveExitKeyboard  (* [["Exit", "Save"]] *)
| TypeChoices.      (* the three types as inline buttons *)

Inductive event :=
| Reply (text : pystr) (m : markup)        (* update.message.reply_text *)
| SendMessage (text : pystr) (m : markup)  (* context.bot.send_message, acting chat *)
| ReadSheet                                (* read_from_google_sheets() *)
| SheetUpdate (range : pystr) (values : list pyval)  (* sheet.update *)
| Post (chat_id : Z) (text : pystr)        (* session.post(url, json=...) *)
| LogError (e : exn)                       (* logger.error / logging.error *)
| LogWarning (text : pystr).               (* logger.warning *)

(** The chats a trace posts to, in order: the delivery attempts. *)
Definition delivery_attempts (evs : list event) : list Z :=
  flat_map (fun ev => match ev with Post chat _ => [chat] | _ => [] end) evs.

(** A blank value: [None], or a string of whitespace only. *)
Definition blank (v : pyval) : bool :=
  match v with
  | VNone => true
  | VStr s => forallb isspace s
  | VInt _ => false
  end.

(* ================================================================== *)
(** ** Record store adapter (models/google_services.py) *)

Module Store.

(** A pandas frame as the code uses it: its column labels and its rows,
    each row a mapping from column label to cell. *)
Record DataFrame := { columns : list pystr; rows : list card }.

Definition cell (r : card) (col : pystr) : pyval :=
  match get r col with Some v => v | None => VNone end.

(** The eight columns of the card, in the order of the source. *)
Definition card_fields : list pystr :=
  [lit "name"; lit "type"; lit "photos"; lit "google_map";
   lit "phone_numbers"; lit "Whatsapp"; lit "hours_of_operation"; lit "ID"].

(** The labels of the card for which there is no column among [have], in
    the order of the source: what pandas collects as [not_found]. *)
Definition not_found (have : list pystr) : list pystr :=
  filter (fun c => negb (existsb (PyStr.eqb c) have)) card_fields.

(** [matches[[...]]] then [to_dict] on one row: the cells under the eight
    labels, or, when some label has no column, the labels without one. *)
Definition select_columns (have : list pystr) (r : card)
  : list pystr + card :=
  match not_found have with
  | [] => inr (map (fun c => (c, cell r c)) card_fields)
  | missing => inl missing
  end.

(** [str] of a list of labels of the card: each between single quotes. *)
Definition labels_str (labels : list pystr) : pystr :=
  lit "[" ++
  join (lit ", ") (map (fun l => lit "'" ++ l ++ lit "'") labels) ++
  lit "]".

(** The exception of pandas for labels without a column, when the frame has
    a column for at least one of the labels asked for, as the frames of
    [search_name_in_df] have for the name:
    [KeyError(f"{not_found} not in index")]. *)
Definition not_in_index (missing : list pystr) : exn :=
  KeyError (labels_str missing ++ lit " not in index").

(** The literal in front of the number of a new ID, as the source file
    has it (three code points). *)
Definition id_prefix : pystr := [226; 8222; 8211]%N.

Definition search_name_in_df (df : DataFrame) (name : pystr)
  : res (card * bool) :=
  if negb (existsb (PyStr.eqb (lit "name")) (columns df)) then
    inl (KeyError (lit "name"))
  else
    let matches :=
      filter (fun r => negb (pyval_neb (cell r (lit "name")) (VStr name)))
             (rows df) in
    match matches with
    | [] =>
        let new_row := of_pairs (map (fun col => (col, VNone)) (columns df)) in
        let new_row := set new_row (lit "name") (VStr name) in
        let new_row :=
          set new_row (lit "ID")
              (VStr (id_prefix ++ of_nat (length (rows df) + 310))) in
        match select_columns (keys new_row) new_row with
        | inr out => inr (out, true)
        | inl missing => inl (not_in_index missing)
        end
    | r :: _ =>
        match select_columns (columns df) r with
        | inr out => inr (out, false)
        | inl missing => inl (not_in_index missing)
        end
    end.

(** The replies of the gspread worksheet to the calls the adapter makes. *)
Record Worksheet := {
  row_values : nat -> res (list pystr);
  get_all_records : res (list card);
  update : pystr -> list pyval -> res unit
}.

(** What [write_on_google_sheets] hands back: a dict, or [False].  [None]
    is the third value [handle_save] compares against. *)
Inductive pyobj :=
| ONone
| OFalse
| ODict (d : card).

Definition opt_val (o : option pyval) : pyval :=
  match o with Some v => v | None => VNone end.

(** The generator under [next(..., None)]: first index, counted from
    [index], of a record whose ID prints like the organization's. *)
Fixpoint existing_row_index (data : list card) (org_id : pystr) (index : nat)
  : option nat :=
  match data with
  | [] => None
  | row :: r =>
      if PyStr.eqb (py_str (opt_val (get row (lit "ID")))) org_id
      then Some index
      else existing_row_index r org_id (S index)
  end.

(** [f"A{i}:{chr(64 + len(headers))}{i}"] *)
Definition cell_range (i ncols : nat) : pystr :=
  lit "A" ++ of_nat i ++ lit ":" ++ [N.of_nat (64 + ncols)] ++ of_nat i.

(** [organization.get(header, default)] *)
Definition get_default (organization : card) (header : pystr) (default : pyval)
  : pyval :=
  match get organization header with Some v => v | None => default end.

Fixpoint updated_values (organization : card) (current_values : list pystr)
         (idx : nat) (headers : list pystr) : list pyval :=
  match headers with
  | [] => []
  | header :: hs =>
      get_default organization header
        (VStr (nth idx current_values []))
      :: updated_values organization current_values (S idx) hs
  end.

Definition zip_dict (headers : list pystr) (values : list pyval) : card :=
  of_pairs (combine headers values).

(** The row the insertion branch writes. *)
Definition new_row_values (organization : card) (headers : list pystr)
  : list pyval :=
  map (fun h => get_default organization h (VStr [])) headers.

(** The body of the [try] of [write_on_google_sheets]. *)
Definition write_body (sh : Worksheet) (organization : card)
  : res card * list event :=
  match row_values sh 1 with
  | inl e => (inl e, [])
  | inr headers =>
  match get_all_records sh with
  | inl e => (inl e, [])
  | inr data =>
      let org_id := py_str (opt_val (get organization (lit "ID"))) in
      match existing_row_index data org_id 2 with
      | Some (S _ as idx) =>
          match row_values sh idx with
          | inl e => (inl e, [])
          | inr current_values =>
              let vals := updated_values organization current_values 0 headers in
              let rng := cell_range idx (length headers) in
              match update sh rng vals with
              | inl e => (inl e, [])
              | inr _ =>
                  (inr (zip_dict headers (map VStr current_values)),
                   [SheetUpdate rng vals])
              end
          end
      | _ =>
          let row := new_row_values organization headers in
          let next_row_index := length data + 2 in
          let rng := cell_range next_row_index (length headers) in
          match update sh rng row with
          | inl e => (inl e, [])
          | inr _ => (inr (zip_dict headers row), [SheetUpdate rng row])
          end
      end
  end end.

Definition write_on_google_sheets (sh : Worksheet) (organization : card)
  : pyobj * list event :=
  match write_body sh organization with
  | (inr d, evs) => (ODict d, evs)
  | (inl e, evs) => (OFalse, evs ++ [LogError e])
  end.

(** The write reports a newly inserted record: the calls answer, no
    record of the sheet carries the organization's ID, and the row is
    written under the last one. *)
Definition newly_inserted (sh : Worksheet) (organization : card)
           (headers : list pystr) (data : list card) : Prop :=
  row_values sh 1 = inr headers /\
  get_all_records sh = inr data /\
  existing_row_index data (py_str (opt_val (get organization (lit "ID")))) 2
    = None /\
  update sh (cell_range (length data + 2) (length headers))
         (new_row_values organization headers) = inr tt.

End Store.
Import Store.

(* ================================================================== *)
(** ** Change notifier (models/notification.py) *)

Module Notifier.

(** The acting Telegram user ([update.message.from_user]). *)
Record User := { id : Z; first_name : pystr; last_name : option pystr }.

(** The answer of the delivery channel to one [post]: its status, and its
    body (what [response.json()] or [response.text()] gives; decoding is
    not modelled). *)
Record response := { status : Z; body : pystr }.

(** One entry of the result list: the decoded body of a 200 answer, or
    [{"status": ..., "error": ...}]. *)
Inductive outcome :=
| Delivered (response_data : pystr)
| Failed (status : Z) (error : pystr).

Definition escape_chars : pystr := lit "\_*[]()~`>#+-=|{}.!".

Definition escape_markdown_v2 (text : pystr) : pystr :=
  flat_map (fun char =>
              if existsb (N.eqb char) escape_chars then [92%N; char] else [char])
           text.

(** One entry of [payload_changes]: the old and the new value. *)
Record change := { old : pyval; new : pyval }.

(** [f"{idx + 1}. {key}: {value['old']} -> {value['new']}"] *)
Definition change_line (idx : nat) (kv : pystr * change) : pystr :=
  of_nat (idx + 1) ++ lit ". " ++ fst kv ++ lit ": "
    ++ py_str (old (snd kv)) ++ lit " -> " ++ py_str (new (snd kv)).

(** [enumerate] from [idx]. *)
Fixpoint change_lines (idx : nat) (items : list (pystr * change))
  : list pystr :=
  match items with
  | [] => []
  | kv :: r => change_line idx kv :: change_lines (S idx) r
  end.

Definition nl : pystr := lit (String "010" EmptyString).

Definition render_changes (payload_changes : dict change) : pystr :=
  join nl (change_lines 0 payload_changes).

(** The loop [for key in payload] over the remaining keys, on a prior
    snapshot that is a dict. *)
Fixpoint diff_loop (todo : list pystr) (payload old_payload : card)
         (payload_changes : dict change) (payload_changes_str : pystr)
  : dict change * pystr :=
  match todo with
  | [] => (payload_changes, payload_changes_str)
  | key :: r =>
      match get old_payload key with
      | Some o =>
          let n := opt_val (get payload key) in
          if pyval_neb n o then
            let pc := set payload_changes key {| old := o; new := n |} in
            diff_loop r payload old_payload pc (render_changes pc)
          else diff_loop r payload old_payload payload_changes payload_changes_str
      | None => diff_loop r payload old_payload payload_changes payload_changes_str
      end
  end.


(** [payload_changes] and [payload_changes_str] when the loop is over. *)
Definition payload_changes (payload old_payload : card) : dict change :=
  fst (diff_loop (keys payload) payload old_payload [] []).

Definition payload_changes_str (payload old_payload : card) : pystr :=
  snd (diff_loop (keys payload) payload old_payload [] []).

(** The first part of [send_notification]: [key in old_payload] raises
    on [False] and on [None] as soon as the payload has a key. *)
Definition compute_changes (payload : card) (old_payload : pyobj)
  : res (dict change * pystr) :=
  match old_payload with
  | ODict o => inr (diff_loop (keys payload) payload o [] [])
  | OFalse =>
      match payload with
      | [] => inr ([], [])
      | _ :: _ => inl (TypeError (lit "argument of type 'bool' is not iterable"))
      end
  | ONone =>
      match payload with
      | [] => inr ([], [])
      | _ :: _ => inl (TypeError (lit "argument of type 'NoneType' is not iterable"))
      end
  end.

(** [str(x) if x else ""] on an optional name. *)
Definition name_or_empty (x : option pystr) : pystr :=
  match x with Some s => s | None => [] end.

(** [self.escape_markdown_v2(old_payload["name"])] *)
Definition escaped_name (old_payload : pyobj) : res pystr :=
  match old_payload with
  | ODict o =>
      match get o (lit "name") with
      | None => inl (KeyError (lit "name"))
      | Some (VStr s) => inr (escape_markdown_v2 s)
      | Some VNone => inl (TypeError (lit "'NoneType' object is not iterable"))
      | Some (VInt _) => inl (TypeError (lit "'int' object is not iterable"))
      end
  | OFalse => inl (TypeError (lit "'bool' object is not subscriptable"))
  | ONone => inl (TypeError (lit "'NoneType' object is not subscriptable"))
  end.

(** The ["text"] of the message. *)
Definition message_text (payload : card) (first last name changes : pystr)
  : pystr :=
  match payload with
  | [] => lit "No new updates."
  | _ :: _ =>
      lit "*From:* " ++ first ++ lit " " ++ last ++ nl
        ++ lit "*Name:* " ++ name ++ nl
        ++ lit "*Changes:*" ++ nl ++ changes
  end.

(** The text every recipient is sent, given the escaped record name. *)
Definition notification_text (payload : card) (manager_id : User)
           (payload_changes_str name : pystr) : pystr :=
  message_text payload
    (escape_markdown_v2 (first_name manager_id))
    (escape_markdown_v2 (name_or_empty (last_name manager_id)))
    name (escape_markdown_v2 payload_changes_str).

Section FanOut.
(** The delivery channel: what [session.post] answers for a chat and a
    text, or the exception it raises. *)
Variable post : Z -> pystr -> res response.

Definition collect (r : response) : outcome :=
  if Z.eqb (status r) 200 then Delivered (body r)
  else Failed (status r) (body r).

(** The loop [for id in id_notification_list], with the result list
    built so far. *)
Fixpoint fan_out (ids : list Z) (payload : card) (old_payload : pyobj)
         (manager_id : User) (payload_changes_str : pystr)
         (results : list outcome)
  : res (list outcome) * list event :=
  match ids with
  | [] => (inr results, [])
  | chat :: rest =>
      match escaped_name old_payload with
      | inl e => (inl e, [])
      | inr name =>
          let text :=
            notification_text payload manager_id payload_changes_str name in
          match post chat text with
          | inl e => (inl e, [Post chat text])
          | inr r =>
              let (out, evs) :=
                fan_out rest payload old_payload manager_id
                        payload_changes_str (results ++ [collect r]) in
              (out, Post chat text :: evs)
          end
      end
  end.

Definition send_notification (ids : list Z) (payload : card)
           (old_payload : pyobj) (manager_id : User)
  : res (list outcome) * list event :=
  match compute_changes payload old_payload with
  | inl e => (inl e, [])
  | inr (_, payload_changes_str) =>
      fan_out ids payload old_payload manager_id payload_changes_str []
  end.

End FanOut.

End Notifier.
Import Notifier.

(* ================================================================== *)
(** ** The bot (bot/telegram_bot.py) *)

Module Bot.

(** [context.user_data]: the three keys the handlers use; [None] is an
    absent key. *)
Record UserData := {
  current_card : option card;
  field_to_update : option pystr;
  photos_received : option (list pystr)
}.

(** [context.user_data.clear()] *)
Definition cleared : UserData :=
  {| current_card := None; field_to_update := None; photos_received := None |}.

Record world := {
  user_data : UserData;
  bot_current_card_id : option card;   (* self.current_card_id *)
  trace : list event
}.

(** The handler monad: state, trace and exceptions.  What a handler did
    before it raised stays done. *)
Definition M (A : Type) : Type := world -> res A * world.

Definition ret {A} (a : A) : M A := fun w => (inr a, w).

Definition bind {A B} (m : M A) (k : A -> M B) : M B :=
  fun w => match m w with
           | (inr a, w') => k a w'
           | (inl e, w') => (inl e, w')
           end.

Definition raise {A} (e : exn) : M A := fun w => (inl e, w).

(** [try: m  except Exception as e: h e] *)
Definition try_except {A} (m : M A) (h : exn -> M A) : M A :=
  fun w => match m w with
           | (inl e, w') => h e w'
           | r => r
           end.

Definition traced (w : world) (evs : list event) : world :=
  {| user_data := user_data w;
     bot_current_card_id := bot_current_card_id w;
     trace := trace w ++ evs |}.

Definition with_user_data (w : world) (ud : UserData) : world :=
  {| user_data := ud;
     bot_current_card_id := bot_current_card_id w;
     trace := trace w |}.

Definition emit (evs : list event) : M unit :=
  fun w => (inr tt, traced w evs).

Definition get_user_data : M UserData := fun w => (inr (user_data w), w).

Definition put_user_data (ud : UserData) : M unit :=
  fun w => (inr tt, with_user_data w ud).

Definition set_bot_card (c : card) : M unit :=
  fun w => (inr tt, {| user_data := user_data w;
                       bot_current_card_id := Some c;
                       trace := trace w |}).

(** A call that returns or raises, and leaves a trace. *)
Definition lift {A} (r : res A * list event) : M A :=
  fun w => (fst r, traced w (snd r)).

Definition of_res {A} (r : res A) : M A := fun w => (r, w).

Declare Scope bot_scope.
Delimit Scope bot_scope with bot.
Notation "x <- m ;; k" := (bind m (fun x => k))
  (at level 61, m at next level, right associativity) : bot_scope.
Notation "m ;; k" := (bind m (fun _ => k))
  (at level 61, right associativity) : bot_scope.
Local Open Scope bot_scope.

(** [context.user_data["current_card"]] *)
Definition the_current_card : M card :=
  ud <- get_user_data ;;
  match current_card ud with
  | Some c => ret c
  | None => raise (KeyError (lit "current_card"))
  end.

(** [context.user_data["photos_received"]] *)
Definition the_photos_received : M (list pystr) :=
  ud <- get_user_data ;;
  match photos_received ud with
  | Some l => ret l
  | None => raise (KeyError (lit "photos_received"))
  end.

(** The conversation state a photo handler returns. *)
Inductive conv := Collecting | END.

(** The states of the specification, as the code carries them: the photo
    conversation is on or off, and the keys of [user_data] are present or
    absent. *)
Inductive session_state := Idle | CardDisplayed | FieldSelected | PhotoCollecting.

Definition state_of (cv : conv) (ud : UserData) : session_state :=
  match cv, current_card ud, field_to_update ud with
  | Collecting, _, _ => PhotoCollecting
  | END, None, _ => Idle
  | END, Some _, Some _ => FieldSelected
  | END, Some _, None => CardDisplayed
  end.

(** The external collaborators and the lists of [config].  Each reply is
    what the call returns, or the exception that leaves it:
    [read_from_google_sheets] for the sheet read of [handle_company_name],
    [sheet] for the worksheet calls of the write, [post] for
    [session.post], and [upload_photo] for [GoogleDrive().upload_photo],
    which raises only for what its own [except HttpError] clauses do not
    catch. *)
Record Env := {
  id_list : list Z;
  id_notification_list : list Z;
  read_from_google_sheets : res DataFrame;
  sheet : Worksheet;
  post : Z -> pystr -> res response;
  upload_photo : pyval -> list pystr -> res pystr
}.

(** The text of [show_place_card]; each field read may raise. *)
Definition info_message (current_row : card) : res pystr :=
  match item current_row (lit "name") with inl e => inl e | inr name =>
  match item current_row (lit "type") with inl e => inl e | inr type =>
  match item current_row (lit "photos") with inl e => inl e | inr photos =>
  match item current_row (lit "google_map") with inl e => inl e | inr google_map =>
  match item current_row (lit "phone_numbers") with inl e => inl e | inr phones =>
  match item current_row (lit "Whatsapp") with inl e => inl e | inr whatsapp =>
  match item current_row (lit "hours_of_operation") with inl e => inl e | inr hours =>
    inr (lit "Name: " ++ py_str name ++ nl
         ++ lit "Type: " ++ py_str type ++ nl
         ++ lit "Photos: " ++ py_str photos ++ nl
         ++ lit "Google map: " ++ py_str google_map ++ nl
         ++ lit "Phone numbers: " ++ py_str phones ++ nl
         ++ lit "WhatsApp: " ++ py_str whatsapp ++ nl
         ++ lit "Hours of operation: " ++ py_str hours)
  end end end end end end end.

Section Handlers.
Variable env : Env.
Variable from_user : User.   (* update.message.from_user *)

Definition start : M unit :=
  if existsb (Z.eqb (id from_user)) (id_list env) then
    emit [SendMessage (lit "Hi! Choose an action:") MainMenu]
  else
    emit [SendMessage (lit "Your ID is not authorized") NoMarkup] ;;
    emit [LogWarning (lit "Unauthorized ID: " ++ of_Z (id from_user))].

Definition add_company : M unit :=
  emit [SendMessage
          (lit "Please enter the name of the company you want to know about.")
          ForceReply].

Definition show_place_card : M unit :=
  current_row <- the_current_card ;;
  text <- of_res (info_message current_row) ;;
  emit [SendMessage text NoMarkup].

Definition show_editbar : M unit :=
  emit [SendMessage (lit "Choose a field to edit:") EditBar].

Definition show_edit_keyboard : M unit :=
  emit [Reply (lit "Save when you are finished, or exit to cancel changes")
              SaveExitKeyboard].

Definition invalid_name_text : pystr :=
  lit "Invalid name. Please enter a valid name with only letters, spaces, and apostrophes.".

(** [context.user_data.setdefault("current_card", v)] *)
Definition setdefault_current_card (v : card) : M unit :=
  ud <- get_user_data ;;
  match current_card ud with
  | Some _ => ret tt
  | None =>
      put_user_data {| current_card := Some v;
                       field_to_update := field_to_update ud;
                       photos_received := photos_received ud |}
  end.

Definition handle_company_name (company_name : pystr) : M unit :=
  if negb (validate_name company_name) then
    emit [SendMessage invalid_name_text ForceReply] ;;
    add_company
  else
    df <- lift (read_from_google_sheets env, [ReadSheet]) ;;
    found <- of_res (search_name_in_df df company_name) ;;
    set_bot_card (fst found) ;;
    setdefault_current_card (fst found) ;;
    emit [SendMessage
            (if snd found then lit "Company not found. A new one was created."
             else lit "Company found.") NoMarkup] ;;
    show_place_card ;;
    show_editbar ;;
    show_edit_keyboard.

Definition handle_exit : M unit :=
  put_user_data cleared ;;
  emit [Reply (lit "You have returned to the main menu") NoMarkup] ;;
  start.

Definition handle_save : M unit :=
  emit [Reply (lit "You saved the place card") NoMarkup] ;;
  show_place_card ;;
  organization <- the_current_card ;;
  send <- lift (let (o, evs) := write_on_google_sheets (sheet env) organization
                in (inr o, evs)) ;;
  match send with
  | ONone => ret tt
  | _ =>
      try_except
        (payload <- the_current_card ;;
         _ <- lift (send_notification (post env) (id_notification_list env)
                                      payload send from_user) ;;
         ret tt)
        (fun e => emit [LogError e]) ;;
      put_user_data cleared ;;
      start
  end.

(** [photo_handler]: [file_path] is what [get_file()] gave, or the
    exception it raised. *)
Definition photo_handler (file_path : res pystr) : M conv :=
  path <- of_res file_path ;;
  ud <- get_user_data ;;
  put_user_data {| current_card := current_card ud;
                   field_to_update := field_to_update ud;
                   photos_received :=
                     Some (match photos_received ud with
                           | Some l => l ++ [path]
                           | None => [path]
                           end) |} ;;
  ret Collecting.

(** [finish_photo]: the [try] covers the upload and the two
    assignments; its [except] branch returns from the handler. *)
Definition finish_photo : M conv :=
  emit [SendMessage (lit "Initializing uploading process...") NoMarkup] ;;
  returned <-
    try_except
      (c <- the_current_card ;;
       folder_name <- of_res (item c (lit "name")) ;;
       links <- the_photos_received ;;
       folder_link <- of_res (upload_photo env folder_name links) ;;
       ud <- get_user_data ;;
       put_user_data {| current_card := current_card ud;
                        field_to_update := field_to_update ud;
                        photos_received := Some [] |} ;;
       c <- the_current_card ;;
       ud <- get_user_data ;;
       put_user_data {| current_card :=
                          Some (set c (lit "photos") (VStr folder_link));
                        field_to_update := field_to_update ud;
                        photos_received := photos_received ud |} ;;
       ret None)
      (fun ex =>
         emit [LogError ex] ;;
         emit [SendMessage (lit "Error while uploading photos, try again")
                           NoMarkup] ;;
         show_place_card ;;
         show_editbar ;;
         ret (Some END)) ;;
  match returned with
  | Some st => ret st
  | None =>
      emit [SendMessage (lit "Photos has been uploaded") NoMarkup] ;;
      show_place_card ;;
      show_editbar ;;
      ret END
  end.

End Handlers.

End Bot.
Import Bot.

(* ================================================================== *)
(** ** Sample data *)

Module Examples.

Definition cafe_with (hours id : pystr) : card :=
  [(lit "name", VStr (lit "Cafe")); (lit "type", VStr (lit "Services"));
   (lit "photos", VStr []); (lit "google_map", VStr []);
   (lit "phone_numbers", VStr []); (lit "Whatsapp", VStr []);
   (lit "hours_of_operation", VStr hours); (lit "ID", VStr id)].

Definition cafe : card := cafe_with (lit "9-5") (lit "7").
Definition bar : card :=
  set (cafe_with (lit "6-2") (lit "8")) (lit "name") (VStr (lit "Bar")).

(** A sheet row whose ID cell is empty. *)
Definition cafe_without_id : card := cafe_with (lit "9-5") [].

Definition frame (rs : list card) : DataFrame :=
  {| columns := card_fields; rows := rs |}.

Definition manager : User :=
  {| id := 7; first_name := lit "Ann"; last_name := None |}.

(** A sheet with the header row only, every call answering. *)
Definition empty_sheet : Worksheet :=
  {| row_values := fun i => if Nat.eqb i 1 then inr card_fields else inr [];
     get_all_records := inr [];
     update := fun _ _ => inr tt |}.

(** A sheet that cannot be reached. *)
Definition unreachable : exn := ClientError (lit "APIError").
Definition broken_sheet : Worksheet :=
  {| row_values := fun _ => inl unreachable;
     get_all_records := inl unreachable;
     update := fun _ _ => inl unreachable |}.

Definition ok_post : Z -> pystr -> res response :=
  fun _ _ => inr {| status := 200; body := lit "{}" |}.

(** A channel that cannot connect for chat 1 and answers for the rest. *)
Definition flaky_post : Z -> pystr -> res response :=
  fun chat _ =>
    if Z.eqb chat 1 then inl (ClientError (lit "Cannot connect to host"))
    else inr {| status := 200; body := lit "{}" |}.

(** A channel that answers 403 for chat 1 and 200 for the rest. *)
Definition refusing_post : Z -> pystr -> res response :=
  fun chat _ =>
    if Z.eqb chat 1 then inr {| status := 403; body := lit "blocked" |}
    else inr {| status := 200; body := lit "{}" |}.

Definition env_with (sh : Worksheet) (df : res DataFrame)
           (up : res pystr) : Env :=
  {| id_list := [7%Z];
     id_notification_list := [101%Z; 102%Z];
     read_from_google_sheets := df;
     sheet := sh;
     post := ok_post;
     upload_photo := fun _ _ => up |}.

Definition session (c : card) : world :=
  {| user_data := {| current_card := Some c;
                     field_to_update := None;
                     photos_received := Some [lit "photos/file_1.jpg"] |};
     bot_current_card_id := None;
     trace := [] |}.

End Examples.
Import Examples.

(* ================================================================== *)
(** ** The map-link validator and the edit handlers (bot/telegram_bot.py) *)

Module Edit.

Local Open Scope bot_scope.

(** [p] as a literal at the start of [s]: what follows it. *)
Fixpoint after_literal (p s : pystr) : option pystr :=
  match p, s with
  | [], _ => Some s
  | _ :: _, [] => None
  | a :: p', b :: s' => if N.eqb a b then after_literal p' s' else None
  end.

(** The class [[a-zA-Z0-9]]. *)
Definition alnum_class (c : pychar) : bool :=
  in_ranges [(97, 122); (65, 90); (48, 57)]%N c.

Definition maps_prefix : pystr := lit "https://maps.app.goo.gl/".

(** [re.match(r"^https:\/\/maps\.app\.goo\.gl\/[a-zA-Z0-9]+$", url)] is not
    [None]. *)
Definition validate_google_maps (url : pystr) : bool :=
  match after_literal maps_prefix url with
  | Some rest => re_match_plus_dollar alnum_class rest
  | None => false
  end.

(** [str.lower] on the characters where it can produce a character of an
    ASCII literal: A-Z.  (Outside ASCII only U+0130 lowers to something
    that holds an ASCII letter, and it lowers to two characters, the second
    of which is not ASCII.) *)
Definition lower_ascii (c : pychar) : pychar :=
  if (N.leb 65 c && N.leb c 90)%bool then (c + 32)%N else c.

(** [new_value.lower() == "show information"] *)
Definition is_show_information (new_value : pystr) : bool :=
  PyStr.eqb (map lower_ascii new_value) (lit "show information").

(** [str(e)] for the exceptions the handlers raise. *)
Definition exn_str (e : exn) : pystr :=
  match e with
  | KeyError k => lit "'" ++ k ++ lit "'"
  | TypeError what => what
  | ClientError what => what
  end.

(** [context.user_data["field_to_update"]] *)
Definition the_field_to_update : M pystr :=
  ud <- get_user_data ;;
  match field_to_update ud with
  | Some f => ret f
  | None => raise (KeyError (lit "field_to_update"))
  end.

(** [context.user_data.pop("field_to_update")] *)
Definition pop_field_to_update : M unit :=
  ud <- get_user_data ;;
  match field_to_update ud with
  | Some _ =>
      put_user_data {| current_card := current_card ud;
                       field_to_update := None;
                       photos_received := photos_received ud |}
  | None => raise (KeyError (lit "field_to_update"))
  end.

(** [context.user_data["current_card"][field] = value] *)
Definition assign_field (field : pystr) (value : pyval) : M unit :=
  c <- the_current_card ;;
  ud <- get_user_data ;;
  put_user_data {| current_card := Some (set c field value);
                   field_to_update := field_to_update ud;
                   photos_received := photos_received ud |}.

(** [context.user_data.setdefault("field_to_update", data)] *)
Definition setdefault_field_to_update (data : pystr) : M unit :=
  ud <- get_user_data ;;
  match field_to_update ud with
  | Some _ => ret tt
  | None =>
      put_user_data {| current_card := current_card ud;
                       field_to_update := Some data;
                       photos_received := photos_received ud |}
  end.

Definition invalid_type_text : pystr :=
  lit "Invalid type. Please choose one of the following types:".

Definition invalid_photos_text : pystr :=
  lit "Invalid photos. Please send valid photo files.".

Definition invalid_map_text : pystr :=
  lit "Invalid input for google_map. Provide a link to Google Maps using the following format https://maps.app.goo.gl/{LocationID}.".

(** The end of the [if] branch of [handle_new_value]: both assignments
    (the first through the alias [current_row]), the [pop], and the two
    displays. *)
Definition apply_new_value (field : pystr) (value : pyval) : M unit :=
  assign_field field value ;;
  assign_field field value ;;
  pop_field_to_update ;;
  show_place_card ;;
  show_editbar.

(** [handle_new_value] on a text message ([update.message.photo] is empty
    on one, so the photos branch always refuses). *)
Definition handle_new_value (new_value : pystr) : M unit :=
  if is_show_information new_value then show_place_card
  else
    try_except
      (current_row <- the_current_card ;;
       field <- the_field_to_update ;;
       if mem current_row field then
         if PyStr.eqb field (lit "name") && negb (validate_name new_value) then
           emit [SendMessage invalid_name_text NoMarkup]
         else if PyStr.eqb field (lit "type") then
           if negb (validate_type new_value) then
             emit [SendMessage invalid_type_text TypeChoices]
           else apply_new_value field (VStr new_value)
         else if PyStr.eqb field (lit "photos") then
           emit [SendMessage invalid_photos_text NoMarkup]
         else if PyStr.eqb field (lit "google_map")
                 && negb (validate_google_maps new_value) then
           emit [SendMessage invalid_map_text NoMarkup]
         else if existsb (PyStr.eqb field) [lit "phone_numbers"; lit "Whatsapp"] then
           apply_new_value field (VStr (normalize_phone new_value))
         else apply_new_value field (VStr new_value)
       else
         emit [LogWarning (lit "Invalid field: " ++ field)] ;;
         emit [SendMessage (lit "Invalid field: " ++ field) NoMarkup])
      (fun e => emit [SendMessage (lit "Error: " ++ exn_str e) NoMarkup]).

(** [button] on the callback data ([callback_query.answer()], which sends
    nothing to the chat, is left out). *)
Definition button (data : pystr) : M unit :=
  if existsb (PyStr.eqb data) valid_types then
    assign_field (lit "type") (VStr data) ;;
    pop_field_to_update ;;
    emit [SendMessage (lit "Type updated to " ++ data) NoMarkup] ;;
    show_place_card ;;
    show_editbar
  else
    setdefault_field_to_update data ;;
    field <- the_field_to_update ;;
    if PyStr.eqb field (lit "type") then
      emit [SendMessage (lit "Choose a type:") TypeChoices]
    else
      emit [SendMessage (lit "Enter new value for " ++ field) NoMarkup].

Definition add_photo : M conv :=
  emit [SendMessage (lit "Send photos below and then do /finish") NoMarkup] ;;
  ret Collecting.

(** The text messages of [start_bot]: the handlers are tried in the order
    they were added, and the first whose filter accepts the message runs.
    [filters.Regex] searches, so ["^Exit$"] accepts the word and the word
    followed by a newline. *)

(** What a message begins with, as the library reads its entities: no
    [bot_command] entity at offset 0; one that gives this bot a command,
    held here as [CommandHandler] compares it (in lower case, without the
    slash and the name of the bot); or one that names another bot, which
    [filters.COMMAND] accepts and no [CommandHandler] of this bot does. *)
Inductive lead := Plain | Command (name : pystr) | ForeignCommand.

Record text_message := { text : pystr; is_reply : bool; entity : lead }.

Inductive text_handler :=
  ToStart | ToExit | ToSave | ToCompanyName | ToNewValue | ToFinish.

Definition regex_word (word s : pystr) : bool :=
  match after_literal word s with
  | Some rest => at_dollar rest
  | None => false
  end.

(** A [bot_command] entity at offset 0 covers a text that begins with a
    slash; of any other text the entity is not looked at. *)
Definition lead_of (m : text_message) : lead :=
  match text m with
  | c :: _ => if N.eqb c 47 then entity m else Plain
  | [] => Plain
  end.

(** [CommandHandler(name, ...)] *)
Definition is_the_command (name : pystr) (m : text_message) : bool :=
  match lead_of m with
  | Command n => PyStr.eqb n name
  | _ => false
  end.

(** [filters.COMMAND] *)
Definition is_command (m : text_message) : bool :=
  match lead_of m with
  | Plain => false
  | _ => true
  end.

(** Which handler takes a text message, in the order of [add_handler]: the
    [start] command, the two words, the replies, the texts that are no
    command, and last the photo conversation, which in its one state falls
    back on the [finish] command and outside of it takes no message. *)
Definition route_text (cv : conv) (m : text_message) : option text_handler :=
  match text m with
  | [] => None
  | _ :: _ =>
      if is_the_command (lit "start") m then Some ToStart
      else if regex_word (lit "Exit") (text m) then Some ToExit
      else if regex_word (lit "Save") (text m) then Some ToSave
      else if is_reply m then Some ToCompanyName
      else if negb (is_command m) then Some ToNewValue
      else
        match cv with
        | Collecting =>
            if is_the_command (lit "finish") m then Some ToFinish else None
        | END => None
        end
  end.

Definition on_text (env : Env) (from_user : User) (cv : conv)
           (m : text_message) : M unit :=
  match route_text cv m with
  | Some ToStart => start env from_user
  | Some ToExit => handle_exit env from_user
  | Some ToSave => handle_save env from_user
  | Some ToCompanyName => handle_company_name env (text m)
  | Some ToNewValue => handle_new_value (text m)
  | Some ToFinish => _ <- finish_photo env ;; ret tt
  | None => ret tt
  end.

End Edit.
Import Edit.

(* ================================================================== *)
(** ** Reading escaped text *)

Module Markdown.

(** A character [escape_markdown_v2] puts a backslash before. *)
Definition reserved (c : pychar) : bool := existsb (N.eqb c) escape_chars.

(** How MarkdownV2 reads escaped text: a backslash stands for nothing and
    makes the character after it literal. *)
Fixpoint unescape (s : pystr) : pystr :=
  match s with
  | [] => []
  | a :: r =>
      if N.eqb a 92 then
        match r with
        | [] => [a]
        | c :: r' => c :: unescape r'
        end
      else a :: unescape r
  end.

(** Escaped text in which every reserved character, the backslash
    included, is the second half of a backslash pair. *)
Inductive well_escaped : pystr -> Prop :=
| we_nil : well_escaped []
| we_plain c s : reserved c = false -> well_escaped s -> well_escaped (c :: s)
| we_pair c s : reserved c = true -> well_escaped s ->
                well_escaped (92%N :: c :: s).

End Markdown.
Import Markdown.

(* ================================================================== *)
(** ** Sample sessions *)

Module Sessions.

(** A session with no card. *)
Definition idle : world :=
  {| user_data := cleared; bot_current_card_id := None; trace := [] |}.

(** A session showing [c], with [field] awaiting a value. *)
Definition editing (c : card) (field : pystr) : world :=
  {| user_data := {| current_card := Some c;
                     field_to_update := Some field;
                     photos_received := None |};
     bot_current_card_id := None;
     trace := [] |}.

(** A session showing [c], with nothing selected and no photo sent. *)
Definition showing (c : card) : world :=
  {| user_data := {| current_card := Some c;
                     field_to_update := None;
                     photos_received := None |};
     bot_current_card_id := None;
     trace := [] |}.

End Sessions.
Import Sessions.

(* ================================================================== *)
(** ** Sequences of updates *)

Module Sequences.

Local Open Scope bot_scope.

(** The photo messages of one collection, handled one after the other;
    each is given with the file path that [get_file()] returned. *)
Fixpoint receive_photos (paths : list pystr) : M unit :=
  match paths with
  | [] => ret tt
  | path :: rest => _ <- photo_handler (inr path) ;; receive_photos rest
  end.

End Sequences.
Import Sequences.

(* ================================================================== *)
(** ** A sample sheet with one record *)

Module SampleSheet.

(** The cells of the row of [cafe], as [row_values] gives them. *)
Definition cafe_cells : list pystr :=
  [lit "Cafe"; lit "Services"; []; []; []; []; lit "9-5"; lit "7"].

(** The same row as [get_all_records] gives it: the ID read as a number. *)
Definition cafe_record : card := set cafe (lit "ID") (VInt 7).

Definition cafe_sheet : Worksheet :=
  {| row_values := fun i => if Nat.eqb i 1 then inr card_fields
                            else if Nat.eqb i 2 then inr cafe_cells
                            else inr [];
     get_all_records := inr [cafe_record];
     update := fun _ _ => inr tt |}.

End SampleSheet.
Import SampleSheet.

(* ================================================================== *)
(** ** Blob upload adapter (GoogleDrive in models/google_services.py) *)

Module Drive.

(** What a call of the Drive client does: it returns, it raises
    [HttpError] (the one exception the adapter catches), or it raises
    something else. *)
Inductive reply (A : Type) :=
| Returned (a : A)
| HttpError
| Raised (e : exn).
Arguments Returned {A} a.
Arguments HttpError {A}.
Arguments Raised {A} e.

(** One entry of [response.get("files")]. *)
Record folder_entry := { entry_name : pyval; entry_id : pyval }.

(** The replies of the outside world to the adapter.  [_get_service()] is
    taken to return. *)
Record DriveApi := {
  folder_pages : list (reply (list folder_entry));
      (* the successive answers of files().list().execute(); the last one
         carries no nextPageToken *)
  create : pyval -> reply pyval;
      (* files().create(folder metadata).execute().get("id"), by folder name *)
  permit : pyval -> reply unit;
      (* permissions().create(fileId=...).execute() *)
  open_media : pystr -> res unit;
      (* MediaFileUpload(filename=file_name, ...), for the file of this url *)
  create_file : pyval -> pystr -> reply pyval;
      (* files().create(..., media_body=media).execute().get("id") *)
  remove : pystr -> res unit
      (* os.remove(file_name), for the file of this url *)
}.

Inductive drive_call :=
| ListFolders
| CreateFolder (folder_name : pyval)
| Permit (folder_id : pyval)
| Retrieve (url : pystr)
| OpenMedia (url : pystr)
| CreateFile (folder_id : pyval) (url : pystr)
| Remove (url : pystr).

(** A step of the adapter: its result or the exception that leaves it, and
    the calls it made. *)
Definition D (A : Type) : Type := (res A * list drive_call)%type.

Definition dret {A} (a : A) : D A := (inr a, []).

Definition dbind {A B} (m : D A) (k : A -> D B) : D B :=
  match m with
  | (inr a, calls) => let (r, calls') := k a in (r, calls ++ calls')
  | (inl e, calls) => (inl e, calls)
  end.

(** A client call inside [try ... except HttpError: return None]. *)
Definition guarded (c : drive_call) (r : reply pyval) : D pyval :=
  match r with
  | Returned v => (inr v, [c])
  | HttpError => (inr VNone, [c])
  | Raised e => (inl e, [c])
  end.

(** [not v] is false *)
Definition truthy (v : pyval) : bool :=
  match v with
  | VNone => false
  | VStr [] => false
  | VStr (_ :: _) => true
  | VInt z => negb (Z.eqb z 0)
  end.

(** The [for file in response.get("files", [])] of [search_folder]. *)
Fixpoint first_named (files : list folder_entry) (folder_name : pyval)
  : option pyval :=
  match files with
  | [] => None
  | f :: rest =>
      if pyval_neb (entry_name f) folder_name then first_named rest folder_name
      else Some (entry_id f)
  end.

(** The [while True] of [search_folder] over the answers still to come. *)
Fixpoint search_pages (pages : list (reply (list folder_entry)))
         (folder_name : pyval) : D pyval :=
  match pages with
  | [] => (inr VNone, [])
  | Returned files :: later =>
      match first_named files folder_name with
      | Some ident => (inr ident, [ListFolders])
      | None =>
          let (r, calls) := search_pages later folder_name in
          (r, ListFolders :: calls)
      end
  | HttpError :: _ => (inr VNone, [ListFolders])
  | Raised e :: _ => (inl e, [ListFolders])
  end.

Definition search_folder (api : DriveApi) (folder_name : pyval) : D pyval :=
  search_pages (folder_pages api) folder_name.

Definition create_folder (api : DriveApi) (folder_name : pyval) : D pyval :=
  guarded (CreateFolder folder_name) (create api folder_name).

Definition make_public_folder (api : DriveApi) (folder_id : pyval) : D unit :=
  match permit api folder_id with
  | Raised e => (inl e, [Permit folder_id])
  | _ => (inr tt, [Permit folder_id])
  end.

(** [upload_foto_in_spec_folder]: [urlretrieve] is called and a failure of
    it is logged and passed over, so what it does is not consulted; the
    upload follows in any case. *)
Definition upload_foto_in_spec_folder (api : DriveApi) (folder_id : pyval)
           (url : pystr) : D pyval :=
  dbind (inr tt, [Retrieve url]) (fun _ =>
  dbind (open_media api url, [OpenMedia url]) (fun _ =>
  guarded (CreateFile folder_id url) (create_file api folder_id url))).

(** The [for url in links] of [upload_photo]. *)
Fixpoint upload_each (api : DriveApi) (folder_id : pyval) (links : list pystr)
  : D unit :=
  match links with
  | [] => dret tt
  | url :: rest =>
      dbind (upload_foto_in_spec_folder api folder_id url) (fun _ =>
      dbind (remove api url, [Remove url]) (fun _ =>
      upload_each api folder_id rest))
  end.

Definition folder_link (folder_id : pyval) : pystr :=
  lit "https://drive.google.com/drive/folders/" ++ py_str folder_id
    ++ lit "?usp=drive_link".

(** The part of [upload_photo] that follows the choice of the folder. *)
Definition with_folder (api : DriveApi) (folder_id : pyval)
           (links : list pystr) : D pystr :=
  dbind (make_public_folder api folder_id) (fun _ =>
  dbind (upload_each api folder_id links) (fun _ =>
  dret (folder_link folder_id))).

Definition upload_photo (api : DriveApi) (folder_name : pyval)
           (links : list pystr) : D pystr :=
  dbind (search_folder api folder_name) (fun found =>
  dbind (if truthy found then dret found else create_folder api folder_name)
        (fun folder_id => with_folder api folder_id links)).

(** The calls for one photo that goes through. *)
Definition photo_calls (folder_id : pyval) (url : pystr) : list drive_call :=
  [Retrieve url; OpenMedia url; CreateFile folder_id url; Remove url].

(** A photo goes through when its file can be opened and removed and the
    upload call returns or raises [HttpError]. *)
Definition goes_through (api : DriveApi) (folder_id : pyval) (url : pystr)
  : Prop :=
  open_media api url = inr tt /\ remove api url = inr tt /\
  forall e, create_file api folder_id url <> Raised e.

(** The bot's environment over a Drive. *)
Definition env_over (api : DriveApi) (e : Env) : Env :=
  {| id_list := id_list e;
     id_notification_list := id_notification_list e;
     read_from_google_sheets := read_from_google_sheets e;
     sheet := sheet e;
     post := post e;
     Bot.upload_photo := fun folder_name links =>
                           fst (upload_photo api folder_name links) |}.


(** A Drive whose listing breaks on its second page, before the page
    that holds the folder of the cafe. *)
Definition interrupted_drive : DriveApi :=
  {| folder_pages := [Returned []; HttpError;
                      Returned [{| entry_name := VStr (lit "Cafe");
                                   entry_id := VStr (lit "f1") |}]];
     create := fun _ => Returned (VStr (lit "f2"));
     permit := fun _ => Returned tt;
     open_media := fun url => if PyStr.eqb url (lit "photos/file_2.jpg")
                              then inl (ClientError (lit "FileNotFoundError"))
                              else inr tt;
     create_file := fun _ _ => Returned (VStr (lit "p"));
     remove := fun _ => inr tt |}.

End Drive.

(* ================================================================== *)
(** * Properties *)

(** ** Strings and dicts *)

Lemma pystr_eqb_eq (a b : pystr) : PyStr.eqb a b = true <-> a = b.
Proof.
  unfold PyStr.eqb; destruct (list_eq_dec N.eq_dec a b); split; congruence.
Qed.

Lemma pystr_eqb_refl (a : pystr) : PyStr.eqb a a = true.
Proof. now apply pystr_eqb_eq. Qed.

Lemma pystr_eqb_neq (a b : pystr) : PyStr.eqb a b = false <-> a <> b.
Proof.
  unfold PyStr.eqb; destruct (list_eq_dec N.eq_dec a b); split; congruence.
Qed.

Lemma startswith_app (p s : pystr) : startswith p (p ++ s) = true.
Proof. induction p; simpl; [reflexivity | now rewrite N.eqb_refl]. Qed.

Lemma pyval_neb_true (a b : pyval) : pyval_neb a b = true <-> a <> b.
Proof. unfold pyval_neb; destruct (pyval_eq_dec a b); split; congruence. Qed.

Lemma pyval_neb_false (a b : pyval) : pyval_neb a b = false <-> a = b.
Proof. unfold pyval_neb; destruct (pyval_eq_dec a b); split; congruence. Qed.

(** ** Field validator *)

Section RegexFacts.
Variable cls : pychar -> bool.
Hypothesis cls_newline : cls 10%N = true.

(** When the class holds the newline, the [$] that stops before a final
    newline accepts nothing that the class would not. *)
Lemma at_dollar_one (c : pychar) : at_dollar [c] = N.eqb c 10.
Proof.
  destruct c as [|p]; [reflexivity|].
  do 4 (try destruct p as [p|p|]); reflexivity.
Qed.

Lemma at_dollar_in_class (s : pystr) :
  at_dollar s = true -> forallb cls s = true.
Proof.
  destruct s as [|c [|d r]].
  - reflexivity.
  - rewrite at_dollar_one. intros E. apply N.eqb_eq in E. subst c.
    simpl. now rewrite cls_newline.
  - intros E. exfalso. revert E. simpl.
    destruct c as [|p]; [discriminate|].
    do 4 (try destruct p as [p|p|]); discriminate.
Qed.

Lemma re_star_dollar_forallb (s : pystr) :
  re_star_dollar cls s = forallb cls s.
Proof.
  induction s as [|c r IH]; [reflexivity|].
  cbn [re_star_dollar]. rewrite IH.
  destruct (at_dollar (c :: r)) eqn:D.
  - apply at_dollar_in_class in D. cbn [forallb] in *. rewrite D.
    now rewrite orb_true_r.
  - now rewrite orb_false_r.
Qed.

Lemma re_match_plus_dollar_spec (s : pystr) :
  re_match_plus_dollar cls s = negb (Nat.eqb (length s) 0) && forallb cls s.
Proof.
  destruct s as [|c r]; [reflexivity|].
  cbn [re_match_plus_dollar length forallb Nat.eqb negb andb].
  now rewrite re_star_dollar_forallb.
Qed.
End RegexFacts.

(** [validate_name] accepts exactly the non-empty strings over its
    character class. *)
Lemma validate_name_spec (name : pystr) :
  validate_name name = true <->
  name <> [] /\ Forall (fun c => name_class c = true) name.
Proof.
  unfold validate_name.
  rewrite re_match_plus_dollar_spec by reflexivity.
  rewrite andb_true_iff, negb_true_iff, Nat.eqb_neq, forallb_forall, Forall_forall.
  split; intros [H1 H2]; split; auto.
  - intros ->; now apply H1.
  - destruct name; [congruence | discriminate].
Qed.

Lemma validate_name_empty : validate_name [] = false.
Proof. reflexivity. Qed.

(** C3, at the input where the code departs from it: U+0451 (small io,
    a letter of the Russian alphabet) lies outside the ranges U+0430..U+044F
    and U+0410..U+042F, so a name of Cyrillic letters only that contains it
    is refused, while the same name spelled with U+0435 is accepted. *)
Theorem validate_name_refuses_io :
  validate_name [1105; 1083; 1082; 1072]%N = false /\
  validate_name [1025; 1083; 1082; 1072]%N = false /\
  validate_name [1077; 1083; 1082; 1072]%N = true.
Proof. repeat split. Qed.

(** The rest of C3 holds on the code: the empty string, and every string with
    a character outside the class, is refused. *)
Lemma validate_name_refuses_outside (name : pystr) (c : pychar) :
  In c name -> name_class c = false -> validate_name name = false.
Proof.
  intros Hin Hc. destruct (validate_name name) eqn:E; [|reflexivity].
  apply validate_name_spec in E. destruct E as [_ E].
  rewrite Forall_forall in E. specialize (E c Hin). congruence.
Qed.

(** *** Phone normalization *)

Lemma filter_idem {A} (f : A -> bool) (l : list A) :
  filter f (filter f l) = filter f l.
Proof.
  induction l as [|a l IH]; [reflexivity|].
  simpl. destruct (f a) eqn:E; simpl; rewrite ?E, IH; reflexivity.
Qed.

Lemma digits_only_are_digits (x : pystr) :
  Forall (fun c => isdigit c = true) (digits_only x).
Proof.
  apply Forall_forall. intros c H. now apply filter_In in H.
Qed.

Lemma digits_only_keeps (x : pystr) (c : pychar) :
  In c (digits_only x) <-> In c x /\ isdigit c = true.
Proof. apply filter_In. Qed.

Lemma digits_only_plus506 (d : pystr) :
  digits_only (lit "+506" ++ digits_only d) = lit "506" ++ digits_only d.
Proof.
  unfold digits_only. rewrite filter_app, filter_idem. reflexivity.
Qed.

Lemma digits_only_plus (d : pystr) :
  digits_only (lit "+" ++ digits_only d) = digits_only d.
Proof.
  unfold digits_only. rewrite filter_app, filter_idem. reflexivity.
Qed.

(** C4: normalization keeps exactly the digit characters, in order; eight
    digits get ["+506"] in front, eleven digits that begin with ["506"] get
    ["+"], and every other input yields its digits unchanged, so that every
    input has a result.  ["88887777"] becomes ["+50688887777"]. *)
Theorem normalize_phone_cases (x : pystr) :
  digits_only x = filter isdigit x /\
  (forall c, In c (digits_only x) <-> In c x /\ isdigit c = true) /\
  (length (digits_only x) = 8 ->
   normalize_phone x = lit "+506" ++ digits_only x) /\
  (length (digits_only x) = 11 ->
   startswith (lit "506") (digits_only x) = true ->
   normalize_phone x = lit "+" ++ digits_only x) /\
  (length (digits_only x) <> 8 ->
   ~ (length (digits_only x) = 11 /\
      startswith (lit "506") (digits_only x) = true) ->
   normalize_phone x = digits_only x) /\
  normalize_phone (lit "88887777") = lit "+50688887777".
Proof.
  split; [reflexivity|].
  split; [intro c; apply digits_only_keeps|].
  unfold normalize_phone. cbv zeta.
  repeat split.
  - intros ->. reflexivity.
  - intros H1 H2. rewrite H1, H2. reflexivity.
  - intros H1 H2.
    destruct (Nat.eqb_spec (length (digits_only x)) 8) as [E|_]; [contradiction|].
    destruct (Nat.eqb_spec (length (digits_only x)) 11) as [E|_]; [|reflexivity].
    destruct (startswith (lit "506") (digits_only x)) eqn:S; [|reflexivity].
    exfalso; apply H2; split; [assumption|reflexivity].
Qed.

(** C5: on an input with eight digits, or with eleven digits that begin with
    ["506"], a second normalization changes nothing. *)
Theorem normalize_phone_stable (x : pystr) :
  length (digits_only x) = 8 \/
  (length (digits_only x) = 11 /\ startswith (lit "506") (digits_only x) = true) ->
  normalize_phone (normalize_phone x) = normalize_phone x.
Proof.
  intros H.
  assert (Hx : normalize_phone x = lit "+506" ++ digits_only x /\
               length (digits_only x) = 8 \/
               normalize_phone x = lit "+" ++ digits_only x /\
               length (digits_only x) = 11 /\
               startswith (lit "506") (digits_only x) = true).
  { unfold normalize_phone; cbv zeta. destruct H as [H|[H1 H2]].
    - left. rewrite H. split; reflexivity.
    - right. rewrite H1, H2. repeat split; reflexivity. }
  destruct Hx as [[E L]|[E [L S]]]; rewrite E.
  - unfold normalize_phone at 1; cbv zeta.
    rewrite digits_only_plus506.
    replace (length (lit "506" ++ digits_only x)) with 11
      by (rewrite length_app, L; reflexivity).
    rewrite startswith_app. reflexivity.
  - unfold normalize_phone at 1; cbv zeta.
    rewrite digits_only_plus, L, S. reflexivity.
Qed.

Lemma normalize_phone_stable_witness :
  normalize_phone (normalize_phone (lit "8888-7777")) =
  normalize_phone (lit "8888-7777").
Proof.
  apply normalize_phone_stable. left. reflexivity.
Defined.

(** ** Dicts *)

Section DictFacts.
Variable V : Type.
Implicit Types (d : dict V) (k : pystr) (v : V).

Lemma get_In d k v : get d k = Some v -> In (k, v) d.
Proof.
  induction d as [|[k' v'] r IH]; simpl; [discriminate|].
  destruct (PyStr.eqb k k') eqn:E.
  - apply pystr_eqb_eq in E. intros [= ->]. left. congruence.
  - auto.
Qed.

Lemma get_None_keys d k : get d k = None <-> ~ In k (keys d).
Proof.
  induction d as [|[k' v'] r IH]; simpl; [tauto|].
  destruct (PyStr.eqb k k') eqn:E.
  - apply pystr_eqb_eq in E. subst. split; [discriminate | tauto].
  - apply pystr_eqb_neq in E. rewrite IH. split; [intros H [?|?]|]; intuition congruence.
Qed.

Lemma get_Some_keys d k : (exists v, get d k = Some v) <-> In k (keys d).
Proof.
  destruct (get d k) eqn:E.
  - split; [intros _|eauto]. apply get_In in E.
    apply in_map_iff. exists (k, v). auto.
  - split; [intros [? [=]]|]. apply get_None_keys in E. tauto.
Qed.



Lemma get_set_same d k v : get (set d k v) k = Some v.
Proof.
  induction d as [|[k' v'] r IH]; simpl.
  - now rewrite pystr_eqb_refl.
  - destruct (PyStr.eqb k k') eqn:E; simpl; rewrite E; auto.
Qed.

Lemma get_set_other d k k' v : k' <> k -> get (set d k v) k' = get d k'.
Proof.
  intros N. induction d as [|[k0 v0] r IH]; simpl.
  - apply pystr_eqb_neq in N. now rewrite N.
  - destruct (PyStr.eqb k k0) eqn:E; simpl.
    + apply pystr_eqb_eq in E. subst.
      apply pystr_eqb_neq in N. now rewrite N.
    + now rewrite IH.
Qed.

End DictFacts.

(** ** Change notifier: the change set *)

Section ChangeSet.
Variables payload old_payload : card.




End ChangeSet.


(** ** Change notifier: the fan-out *)

Section FanOutFacts.
Variable post : Z -> pystr -> res response.
Variables (payload : card) (old_payload : pyobj) (manager_id : User).
Variable changes_str : pystr.

Local Abbreviation text_for name :=
  (notification_text payload manager_id changes_str name).

Lemma fan_out_all_answer (name : pystr) (ids : list Z) :
  escaped_name old_payload = inr name ->
  forall (outs results : list outcome),
    Forall2 (fun chat o => exists r, post chat (text_for name) = inr r /\
                                     o = collect r) ids outs ->
    fan_out post ids payload old_payload manager_id changes_str results =
    (inr (results ++ outs), map (fun chat => Post chat (text_for name)) ids).
Proof.
  intros Hn outs results H. revert results.
  induction H as [|chat o ids outs (r & Hr & ->) _ IH]; intros results.
  - simpl. now rewrite app_nil_r.
  - cbn [fan_out]. rewrite Hn. cbv zeta. rewrite Hr.
    rewrite IH. cbn [map]. now rewrite <- app_assoc.
Qed.

Lemma fan_out_raises (name : pystr) (pre : list Z) (chat : Z) (rest : list Z)
      (e : exn) :
  escaped_name old_payload = inr name ->
  post chat (text_for name) = inl e ->
  forall (outs results : list outcome),
    Forall2 (fun chat o => exists r, post chat (text_for name) = inr r /\
                                     o = collect r) pre outs ->
    fan_out post (pre ++ chat :: rest) payload old_payload manager_id
            changes_str results =
    (inl e, map (fun chat => Post chat (text_for name)) (pre ++ [chat])).
Proof.
  intros Hn He outs results H. revert results.
  induction H as [|c o pre outs (r & Hr & ->) _ IH]; intros results.
  - cbn [app fan_out]. rewrite Hn. cbv zeta. now rewrite He.
  - cbn [app fan_out]. rewrite Hn. cbv zeta. rewrite Hr.
    rewrite IH. reflexivity.
Qed.

End FanOutFacts.





Lemma send_notification_dict post ids payload (o : card) manager :
  send_notification post ids payload (ODict o) manager =
  fan_out post ids payload (ODict o) manager (payload_changes_str payload o) [].
Proof.
  unfold send_notification, compute_changes, payload_changes_str.
  now destruct (diff_loop (keys payload) payload o [] []).
Qed.

(** C7 as stated fails when a delivery call raises: with two recipients and a
    channel that raises for the first, the second is never attempted and the
    exception leaves [send_notification]. *)
Lemma fan_out_stops_at_raise :
  ~ (exists results,
        fst (send_notification flaky_post [1; 2]%Z cafe (ODict cafe) manager)
        = inr results)
  /\ ~ In 2%Z (delivery_attempts
                 (snd (send_notification flaky_post [1; 2]%Z cafe (ODict cafe)
                                         manager))).
Proof.
  split.
  - intros [results H]. vm_compute in H. discriminate.
  - vm_compute. intros [H|[]]. discriminate.
Qed.

(** C7, amended: every recipient whose delivery call answers (status 200 or
    not) gets its outcome appended in list order, and a non-200 answer does
    not stop the loop: when all calls answer, all recipients are attempted, in
    order, and the result list holds one outcome per recipient.  A call that
    raises is not caught here: the recipients after it are not attempted and
    the exception is the result of [send_notification]. *)
Theorem fan_out_outcomes post (ids : list Z) payload (o : card) manager
        (name : pystr) :
  get o (lit "name") = Some (VStr name) ->
  let text := notification_text payload manager (payload_changes_str payload o)
                                (escape_markdown_v2 name) in
  let answered := fun chat out => exists r, post chat text = inr r /\
                                            out = collect r in
  (forall r, status r = 200%Z -> collect r = Delivered (body r)) /\
  (forall r, status r <> 200%Z -> collect r = Failed (status r) (body r)) /\
  (forall outs,
      Forall2 answered ids outs ->
      send_notification post ids payload (ODict o) manager =
      (inr outs, map (fun chat => Post chat text) ids)) /\
  (forall pre chat rest e outs,
      ids = pre ++ chat :: rest ->
      Forall2 answered pre outs ->
      post chat text = inl e ->
      send_notification post ids payload (ODict o) manager =
      (inl e, map (fun chat => Post chat text) (pre ++ [chat]))).
Proof.
  intros Hname text answered.
  assert (Hn : escaped_name (ODict o) = inr (escape_markdown_v2 name))
    by (unfold escaped_name; now rewrite Hname).
  split; [intros r H; unfold collect; now rewrite H|].
  split; [intros r H; unfold collect; apply Z.eqb_neq in H; now rewrite H|].
  split.
  - intros outs H. rewrite send_notification_dict.
    erewrite fan_out_all_answer; [reflexivity | exact Hn | exact H].
  - intros pre chat rest e outs -> H He. rewrite send_notification_dict.
    erewrite fan_out_raises; [reflexivity | exact Hn | exact He | exact H].
Qed.

Lemma fan_out_outcomes_witness :
  fst (send_notification refusing_post [1; 2]%Z cafe (ODict cafe) manager) =
  inr [Failed 403 (lit "blocked"); Delivered (lit "{}")].
Proof.
  assert (Hname : get cafe (lit "name") = Some (VStr (lit "Cafe"))) by reflexivity.
  destruct (fan_out_outcomes refusing_post [1; 2]%Z cafe cafe manager Hname)
    as (_ & _ & H & _).
  rewrite (H [Failed 403 (lit "blocked"); Delivered (lit "{}")]); [reflexivity|].
  repeat constructor.
  - exists {| status := 403; body := lit "blocked" |}. split; reflexivity.
  - exists {| status := 200; body := lit "{}" |}. split; reflexivity.
Defined.

(** ** Record store adapter *)

Lemma select_columns_ok (have : list pystr) (r : card) out :
  select_columns have r = inr out ->
  out = map (fun c => (c, cell r c)) card_fields.
Proof.
  unfold select_columns. destruct (not_found have); [|discriminate].
  now intros [= <-].
Qed.

Lemma selected_id (r : card) :
  get (map (fun c => (c, cell r c)) card_fields) (lit "ID") =
  Some (cell r (lit "ID")).
Proof. reflexivity. Qed.

Lemma new_id_not_blank (n : nat) : blank (VStr (id_prefix ++ of_nat n)) = false.
Proof. reflexivity. Qed.

(** What [search_name_in_df] returns, by branch. *)
Lemma search_name_in_df_result (df : DataFrame) (name : pystr) c created :
  search_name_in_df df name = inr (c, created) ->
  (created = true ->
   get c (lit "ID") = Some (VStr (id_prefix ++ of_nat (length (rows df) + 310)))) /\
  (created = false ->
   exists r, In r (rows df) /\ cell r (lit "name") = VStr name /\
             get c (lit "ID") = Some (cell r (lit "ID"))).
Proof.
  unfold search_name_in_df.
  destruct (negb _); [discriminate|].
  destruct (filter _ (rows df)) as [|r rest] eqn:F.
  - match goal with |- context [select_columns ?h ?row] =>
      destruct (select_columns h row) as [e|out] eqn:S end;
      [discriminate|].
    intros [= <- <-]. split; [intros _|discriminate].
    apply select_columns_ok in S. subst out. rewrite selected_id.
    unfold cell. now rewrite get_set_same.
  - destruct (select_columns (columns df) r) as [e|out] eqn:S;
      [discriminate|].
    intros [= <- <-]. split; [discriminate|intros _].
    exists r. assert (Hin : In r (filter
        (fun r0 => negb (pyval_neb (cell r0 (lit "name")) (VStr name))) (rows df)))
      by (rewrite F; now left).
    apply filter_In in Hin. destruct Hin as [Hin Hm].
    apply negb_true_iff, pyval_neb_false in Hm.
    apply select_columns_ok in S. subst out.
    repeat split; auto.
Qed.

(** ** Handlers *)

(** Unfolds the monad, and nothing of the strings. *)
Ltac run_monad :=
  cbv beta iota zeta delta
      [bind ret raise emit lift of_res get_user_data put_user_data set_bot_card
       try_except the_current_card the_photos_received setdefault_current_card
       show_place_card show_editbar show_edit_keyboard add_company
       traced with_user_data];
  cbn [user_data bot_current_card_id trace fst snd
       current_card field_to_update photos_received].

Lemma handle_company_name_invalid (env : Env) (name : pystr) (w : world) :
  validate_name name = false ->
  handle_company_name env name w =
  (inr tt,
   traced w [SendMessage invalid_name_text ForceReply;
             SendMessage
               (lit "Please enter the name of the company you want to know about.")
               ForceReply]).
Proof.
  intros H. unfold handle_company_name. rewrite H. cbn [negb].
  run_monad. unfold traced. now rewrite <- app_assoc.
Qed.

(** With a card already in the session, the handler changes no key of
    [user_data], whatever the name and whatever the sheet answers. *)
Lemma handle_company_name_frame (env : Env) (name : pystr) (w : world) c :
  current_card (user_data w) = Some c ->
  user_data (snd (handle_company_name env name w)) = user_data w.
Proof.
  intros Hc. unfold handle_company_name.
  destruct (validate_name name); cbn [negb]; [|reflexivity].
  run_monad.
  destruct (read_from_google_sheets env) as [e|df]; [reflexivity|].
  destruct (search_name_in_df df name) as [e|found]; [reflexivity|].
  repeat (progress (run_monad; rewrite ?Hc)).
  destruct (info_message c); reflexivity.
Qed.

Lemma handle_company_name_run (env : Env) (name : pystr) (w : world) c df found text :
  current_card (user_data w) = Some c ->
  validate_name name = true ->
  read_from_google_sheets env = inr df ->
  search_name_in_df df name = inr found ->
  info_message c = inr text ->
  handle_company_name env name w =
  (inr tt,
   {| user_data := user_data w;
      bot_current_card_id := Some (fst found);
      trace := trace w ++
        [ReadSheet;
         SendMessage (if snd found
                      then lit "Company not found. A new one was created."
                      else lit "Company found.") NoMarkup;
         SendMessage text NoMarkup;
         SendMessage (lit "Choose a field to edit:") EditBar;
         Reply (lit "Save when you are finished, or exit to cancel changes")
               SaveExitKeyboard] |}).
Proof.
  intros Hc Hv Hr Hs Hi. unfold handle_company_name. rewrite Hv. cbn [negb].
  repeat (progress (run_monad; rewrite ?Hc, ?Hr, ?Hs, ?Hi)).
  repeat rewrite <- app_assoc. reflexivity.
Qed.

(** C10: when the session already holds a card, a further company name
    leaves [user_data] as it was, so the stored card is still the earlier
    one; the record found or created for the new name goes to the bot's own
    attribute only, and the card the handler displays is the earlier one. *)
Theorem company_name_keeps_card (env : Env) (name : pystr) (w : world) c :
  current_card (user_data w) = Some c ->
  user_data (snd (handle_company_name env name w)) = user_data w /\
  fst (the_current_card (snd (handle_company_name env name w))) = inr c /\
  (forall df found text,
      validate_name name = true ->
      read_from_google_sheets env = inr df ->
      search_name_in_df df name = inr found ->
      info_message c = inr text ->
      handle_company_name env name w =
      (inr tt,
       {| user_data := user_data w;
          bot_current_card_id := Some (fst found);
          trace := trace w ++
            [ReadSheet;
             SendMessage (if snd found
                          then lit "Company not found. A new one was created."
                          else lit "Company found.") NoMarkup;
             SendMessage text NoMarkup;
             SendMessage (lit "Choose a field to edit:") EditBar;
             Reply (lit "Save when you are finished, or exit to cancel changes")
                   SaveExitKeyboard] |})).
Proof.
  intros Hc.
  pose proof (handle_company_name_frame env name w Hc) as F.
  split; [exact F|]. split.
  - run_monad. rewrite F, Hc. reflexivity.
  - intros df found text Hv Hr Hs Hi.
    eapply handle_company_name_run; eassumption.
Qed.

Lemma company_name_keeps_card_witness :
  user_data (snd (handle_company_name
                    (env_with empty_sheet (inr (frame [bar])) (inr []))
                    (lit "Bar") (session cafe)))
  = user_data (session cafe).
Proof.
  apply (company_name_keeps_card
           (env_with empty_sheet (inr (frame [bar])) (inr []))
           (lit "Bar") (session cafe) (c := cafe)).
  reflexivity.
Defined.

(** C9 as stated fails for a loaded record: a sheet row whose ID cell is
    empty is returned, under a name that passes [validate_name], with that
    blank identifier. *)
Lemma loaded_record_blank_id :
  validate_name (lit "Cafe") = true /\
  exists c,
    search_name_in_df (frame [cafe_without_id]) (lit "Cafe") = inr (c, false) /\
    get c (lit "ID") = Some (VStr []) /\
    blank (VStr []) = true.
Proof.
  split; [reflexivity|]. exists cafe_without_id. repeat split.
Qed.

(** C9, amended: the handler looks a name up only after [validate_name] has
    accepted it (a refused name yields the two prompts and nothing else);
    the record it then holds is the one [search_name_in_df] returns; a
    freshly created record has the non-blank identifier made of the prefix
    and [len(df) + 310]; a loaded record has the identifier of a sheet row
    with that name, whatever that cell holds. *)
Theorem lookup_or_create_identifier (env : Env) (name : pystr) (w : world) :
  (validate_name name = false ->
   handle_company_name env name w =
   (inr tt,
    traced w [SendMessage invalid_name_text ForceReply;
              SendMessage
                (lit "Please enter the name of the company you want to know about.")
                ForceReply])) /\
  (In ReadSheet (trace (snd (handle_company_name env name w))) ->
   In ReadSheet (trace w) \/ validate_name name = true) /\
  (forall df c created,
      validate_name name = true ->
      read_from_google_sheets env = inr df ->
      search_name_in_df df name = inr (c, created) ->
      bot_current_card_id (snd (handle_company_name env name w)) = Some c) /\
  (forall df c created,
      search_name_in_df df name = inr (c, created) ->
      (created = true ->
       get c (lit "ID") =
         Some (VStr (id_prefix ++ of_nat (length (rows df) + 310))) /\
       blank (VStr (id_prefix ++ of_nat (length (rows df) + 310))) = false) /\
      (created = false ->
       exists r, In r (rows df) /\ cell r (lit "name") = VStr name /\
                 get c (lit "ID") = Some (cell r (lit "ID")))).
Proof.
  split; [apply handle_company_name_invalid|].
  split.
  { destruct (validate_name name) eqn:V; [now right|].
    rewrite handle_company_name_invalid by exact V.
    cbn [snd traced trace]. intros H. apply in_app_or in H.
    destruct H as [H|[H|[H|[]]]]; [now left|discriminate|discriminate]. }
  split.
  { intros df c created V R S. unfold handle_company_name.
    rewrite V. cbn [negb].
    repeat (progress (run_monad; rewrite ?R, ?S)).
    destruct (current_card (user_data w)) as [c0|] eqn:Hc;
      repeat (progress (run_monad; rewrite ?Hc)).
    - destruct (info_message c0); reflexivity.
    - destruct (info_message c); reflexivity. }
  intros df c created S.
  destruct (search_name_in_df_result _ _ S) as [H1 H2].
  split; [|exact H2].
  intros E. split; [now apply H1 | apply new_id_not_blank].
Qed.

Lemma get_set_some {V} (d : dict V) k v f x :
  get d f = Some x -> exists y, get (set d k v) f = Some y.
Proof.
  intros H. destruct (list_eq_dec N.eq_dec f k) as [->|N].
  - exists v. apply get_set_same.
  - exists x. now rewrite get_set_other.
Qed.

(** A card that can be displayed can still be displayed after one of its
    fields is assigned. *)
Lemma info_message_set (c : card) k v text :
  info_message c = inr text ->
  exists text', info_message (set c k v) = inr text'.
Proof.
  unfold info_message, item.
  repeat match goal with
         | |- context [match get c ?f with _ => _ end] =>
             let E := fresh "E" in
             destruct (get c f) eqn:E; [|discriminate];
             destruct (get_set_some c k v f E) as [? ->]
         end.
  intros _. eexists. reflexivity.
Qed.

Section FinishPhoto.
Variable env : Env.
Variables (w : world) (c : card) (links : list pystr) (name : pyval)
          (text : pystr).
Hypothesis Hcard : current_card (user_data w) = Some c.
Hypothesis Hlinks : photos_received (user_data w) = Some links.
Hypothesis Hname : get c (lit "name") = Some name.
Hypothesis Htext : info_message c = inr text.

Lemma finish_photo_failure ex :
  upload_photo env name links = inl ex ->
  finish_photo env w =
  (inr END,
   traced w [SendMessage (lit "Initializing uploading process...") NoMarkup;
             LogError ex;
             SendMessage (lit "Error while uploading photos, try again") NoMarkup;
             SendMessage text NoMarkup;
             SendMessage (lit "Choose a field to edit:") EditBar]).
Proof.
  intros Hup. unfold finish_photo, item.
  repeat (progress (run_monad; rewrite ?Hcard, ?Hlinks, ?Hname, ?Hup, ?Htext)).
  unfold traced. cbn [user_data bot_current_card_id trace].
  repeat rewrite <- app_assoc. reflexivity.
Qed.

Lemma finish_photo_success link text' :
  upload_photo env name links = inr link ->
  info_message (set c (lit "photos") (VStr link)) = inr text' ->
  finish_photo env w =
  (inr END,
   {| user_data := {| current_card := Some (set c (lit "photos") (VStr link));
                      field_to_update := field_to_update (user_data w);
                      photos_received := Some [] |};
      bot_current_card_id := bot_current_card_id w;
      trace := trace w ++
        [SendMessage (lit "Initializing uploading process...") NoMarkup;
         SendMessage (lit "Photos has been uploaded") NoMarkup;
         SendMessage text' NoMarkup;
         SendMessage (lit "Choose a field to edit:") EditBar] |}).
Proof.
  intros Hup Ht. unfold finish_photo, item.
  repeat (progress (run_monad; rewrite ?Hcard, ?Hlinks, ?Hname, ?Hup, ?Ht)).
  repeat rewrite <- app_assoc. reflexivity.
Qed.
End FinishPhoto.




(** ** Saving *)

Lemma existing_row_index_ge (data : list card) (org_id : pystr) :
  forall start idx, existing_row_index data org_id start = Some idx -> start <= idx.
Proof.
  induction data as [|row r IH]; intros start idx; simpl; [discriminate|].
  destruct (PyStr.eqb _ org_id).
  - intros [= <-]. lia.
  - intros H. apply IH in H. lia.
Qed.

(** On the insertion branch the write returns the new row as a dict. *)
Lemma write_newly_inserted (sh : Worksheet) (organization : card) headers data :
  newly_inserted sh organization headers data ->
  write_on_google_sheets sh organization =
  (ODict (zip_dict headers (new_row_values organization headers)),
   [SheetUpdate (cell_range (length data + 2) (length headers))
                (new_row_values organization headers)]).
Proof.
  intros (Hh & Hd & Hi & Hu).
  unfold write_on_google_sheets, write_body.
  now rewrite Hh, Hd, Hi, Hu.
Qed.

(** The write never returns [None]. *)
Lemma write_not_none (sh : Worksheet) (organization : card) :
  fst (write_on_google_sheets sh organization) <> ONone.
Proof.
  unfold write_on_google_sheets.
  destruct (write_body sh organization) as [[e|d] evs]; discriminate.
Qed.

(** A failed write logs the exception and returns [False]. *)
Lemma write_failure (sh : Worksheet) (organization : card) :
  fst (write_on_google_sheets sh organization) = OFalse ->
  exists e evs,
    write_body sh organization = (inl e, evs) /\
    write_on_google_sheets sh organization = (OFalse, evs ++ [LogError e]).
Proof.
  unfold write_on_google_sheets.
  destruct (write_body sh organization) as [[e|d] evs]; [|discriminate].
  intros _. now exists e, evs.
Qed.

Lemma start_run (env : Env) (u : User) (w : world) :
  start env u w =
  (inr tt,
   traced w (if existsb (Z.eqb (id u)) (id_list env)
             then [SendMessage (lit "Hi! Choose an action:") MainMenu]
             else [SendMessage (lit "Your ID is not authorized") NoMarkup;
                   LogWarning (lit "Unauthorized ID: " ++ of_Z (id u))])).
Proof.
  unfold start. destruct (existsb _ _); run_monad; [reflexivity|].
  now rewrite <- app_assoc.
Qed.

(** The run of [handle_save] on a displayable card: the write never being
    [None], the notifier is called with whatever the write returned, then
    the session is cleared and the menu shown. *)
Lemma handle_save_run (env : Env) (u : User) (w : world) c text send evs r nevs :
  current_card (user_data w) = Some c ->
  info_message c = inr text ->
  write_on_google_sheets (sheet env) c = (send, evs) ->
  send_notification (post env) (id_notification_list env) c send u = (r, nevs) ->
  handle_save env u w =
  start env u
    {| user_data := cleared;
       bot_current_card_id := bot_current_card_id w;
       trace := trace w
                ++ [Reply (lit "You saved the place card") NoMarkup;
                    SendMessage text NoMarkup]
                ++ evs ++ nevs
                ++ match r with inl e => [LogError e] | inr _ => [] end |}.
Proof.
  intros Hc Ht Hw Hn.
  pose proof (write_not_none (sheet env) c) as NN. rewrite Hw in NN. cbn in NN.
  unfold handle_save.
  repeat (progress (run_monad; rewrite ?Hc, ?Ht, ?Hw)).
  destruct send as [| |d]; [congruence| |];
    repeat (progress (run_monad; rewrite ?Hc, ?Hn));
    destruct r; run_monad; repeat rewrite <- app_assoc; rewrite ?app_nil_r;
    reflexivity.
Qed.

Lemma write_body_failure_silent (sh : Worksheet) (organization : card) e evs :
  write_body sh organization = (inl e, evs) -> evs = [].
Proof.
  unfold write_body.
  destruct (row_values sh 1) as [e1|headers]; [now intros [= _ <-]|].
  destruct (get_all_records sh) as [e2|data]; [now intros [= _ <-]|].
  destruct (existing_row_index data _ 2) as [[|idx]|].
  - destruct (update sh _ _); [now intros [= _ <-]|discriminate].
  - destruct (row_values sh (S idx)); [now intros [= _ <-]|].
    destruct (update sh _ _); [now intros [= _ <-]|discriminate].
  - destruct (update sh _ _); [now intros [= _ <-]|discriminate].
Qed.

Lemma info_message_nonempty (c : card) text : info_message c = inr text -> c <> [].
Proof. intros H ->. discriminate. Qed.

Lemma delivery_attempts_app (a b : list event) :
  delivery_attempts (a ++ b) = delivery_attempts a ++ delivery_attempts b.
Proof. apply flat_map_app. Qed.

Lemma delivery_attempts_posts (text : pystr) (ids : list Z) :
  delivery_attempts (map (fun chat => Post chat text) ids) = ids.
Proof. induction ids as [|i r IH]; simpl; [reflexivity | now rewrite IH]. Qed.

(** C2 as stated fails: with a sheet that cannot be reached the write
    returns [False], yet the handler clears the session, and all it sends the
    user is the confirmation, the card and the menu. *)
Lemma failed_save_clears_session :
  let env := env_with broken_sheet (inr (frame [])) (inr []) in
  fst (write_on_google_sheets (sheet env) cafe) = OFalse /\
  user_data (snd (handle_save env manager (session cafe))) = cleared /\
  user_data (session cafe) <> cleared /\
  exists text,
    info_message cafe = inr text /\
    trace (snd (handle_save env manager (session cafe))) =
    [Reply (lit "You saved the place card") NoMarkup;
     SendMessage text NoMarkup;
     LogError unreachable;
     LogError (TypeError (lit "argument of type 'bool' is not iterable"));
     SendMessage (lit "Hi! Choose an action:") MainMenu].
Proof.
  cbv zeta. split; [reflexivity|]. split; [reflexivity|].
  split; [discriminate|].
  eexists. split; [reflexivity|]. vm_compute. reflexivity.
Qed.

(** C2, amended: when the write fails it has logged the exception and
    returned [False]; the user was sent the confirmation and the card before
    the write; after it no delivery to the distribution list is attempted, and
    nothing that tells the user of the failure is sent: what follows in the
    trace is log entries and at most the main menu or the authorization
    notice. *)
Theorem failed_save_is_only_logged (env : Env) (u : User) (w : world) c text :
  current_card (user_data w) = Some c ->
  info_message c = inr text ->
  fst (write_on_google_sheets (sheet env) c) = OFalse ->
  exists e rest,
    write_body (sheet env) c = (inl e, []) /\
    trace (snd (handle_save env u w)) =
      trace w ++ [Reply (lit "You saved the place card") NoMarkup;
                  SendMessage text NoMarkup;
                  LogError e] ++ rest /\
    delivery_attempts rest = [] /\
    forall ev, In ev rest ->
      (exists x, ev = LogError x) \/ (exists t, ev = LogWarning t) \/
      ev = SendMessage (lit "Hi! Choose an action:") MainMenu \/
      ev = SendMessage (lit "Your ID is not authorized") NoMarkup.
Proof.
  intros Hc Ht Hf.
  destruct (write_failure _ _ Hf) as (e & evs & Hb & Hw).
  pose proof (write_body_failure_silent _ _ Hb) as ->.
  assert (Hn : send_notification (post env) (id_notification_list env) c OFalse u
               = (inl (TypeError (lit "argument of type 'bool' is not iterable")), [])).
  { unfold send_notification, compute_changes.
    destruct c; [now apply info_message_nonempty in Ht | reflexivity]. }
  rewrite (handle_save_run env u w Hc Ht Hw Hn), start_run.
  exists e. eexists. split; [exact Hb|].
  cbn [snd traced trace app]. rewrite <- !app_assoc. cbn [app].
  split; [reflexivity|].
  destruct (existsb (Z.eqb (id u)) (id_list env)); split; try reflexivity;
    intros ev H; cbn in H; intuition eauto.
Qed.

Lemma failed_save_is_only_logged_witness :
  exists e rest,
    write_body broken_sheet cafe = (inl e, []) /\
    trace (snd (handle_save (env_with broken_sheet (inr (frame [])) (inr []))
                            manager (session cafe))) =
      [] ++ [Reply (lit "You saved the place card") NoMarkup;
             SendMessage
               (lit "Name: Cafe" ++ nl ++ lit "Type: Services" ++ nl
                  ++ lit "Photos: " ++ nl ++ lit "Google map: " ++ nl
                  ++ lit "Phone numbers: " ++ nl ++ lit "WhatsApp: " ++ nl
                  ++ lit "Hours of operation: 9-5") NoMarkup;
             LogError e] ++ rest /\
    delivery_attempts rest = [] /\
    forall ev, In ev rest ->
      (exists x, ev = LogError x) \/ (exists t, ev = LogWarning t) \/
      ev = SendMessage (lit "Hi! Choose an action:") MainMenu \/
      ev = SendMessage (lit "Your ID is not authorized") NoMarkup.
Proof.
  apply (@failed_save_is_only_logged
           (env_with broken_sheet (inr (frame [])) (inr []))
           manager (session cafe) cafe _ eq_refl eq_refl eq_refl).
Defined.

Lemma get_fold_set {V} (f : pystr -> V) (k : pystr) (pairs : list (pystr * V)) :
  (forall kv, In kv pairs -> snd kv = f (fst kv)) ->
  forall d0,
    get (fold_left (fun d kv => set d (fst kv) (snd kv)) pairs d0) k =
    if existsb (PyStr.eqb k) (map fst pairs) then Some (f k) else get d0 k.
Proof.
  induction pairs as [|[k' v'] r IH]; intros H d0; [reflexivity|].
  cbn [fold_left map existsb fst snd].
  rewrite IH by (intros; apply H; now right).
  destruct (existsb (PyStr.eqb k) (map fst r)); [now rewrite orb_true_r|].
  rewrite orb_false_r. destruct (PyStr.eqb k k') eqn:E.
  - apply pystr_eqb_eq in E. subst k'. rewrite get_set_same.
    f_equal. apply (H (k, v')). now left.
  - apply pystr_eqb_neq in E. now rewrite get_set_other.
Qed.

Lemma combine_map_fst {A B} (f : A -> B) (l : list A) :
  map fst (combine l (map f l)) = l.
Proof. induction l; simpl; congruence. Qed.

Lemma combine_map_snd {A B} (f : A -> B) (l : list A) kv :
  In kv (combine l (map f l)) -> snd kv = f (fst kv).
Proof.
  induction l as [|a r IH]; simpl; [tauto|].
  intros [<-|H]; [reflexivity | now apply IH].
Qed.

(** The dict of the inserted row has, under each header, what the record
    holds for it (an empty string when it holds nothing). *)
Lemma get_inserted_row (organization : card) (headers : list pystr) k :
  In k headers ->
  get (zip_dict headers (new_row_values organization headers)) k =
  Some (get_default organization k (VStr [])).
Proof.
  intros Hin. unfold zip_dict, of_pairs, new_row_values.
  rewrite (get_fold_set (fun h => get_default organization h (VStr [])))
    by (intros kv; apply (combine_map_snd
                            (fun h => get_default organization h (VStr [])))).
  rewrite combine_map_fst.
  replace (existsb (PyStr.eqb k) headers) with true; [reflexivity|].
  symmetry. apply existsb_exists. exists k. split; [exact Hin|apply pystr_eqb_refl].
Qed.

Lemma all_answer_outcomes (post : Z -> pystr -> res response) (text : pystr)
      (ids : list Z) :
  (forall chat, In chat ids -> exists r, post chat text = inr r) ->
  exists outs,
    Forall2 (fun chat o => exists r, post chat text = inr r /\ o = collect r)
            ids outs.
Proof.
  induction ids as [|i r IH]; intros H.
  - exists []. constructor.
  - destruct (H i (or_introl eq_refl)) as [resp Hr].
    destruct IH as [outs Ho]; [intros; apply H; now right|].
    exists (collect resp :: outs). constructor; [eauto | exact Ho].
Qed.

(** C1 as stated fails: on a sheet without the record's ID the write
    inserts a row, and the save then posts to both recipients of the
    distribution list. *)
Lemma new_record_save_notifies :
  let env := env_with empty_sheet (inr (frame [])) (inr []) in
  newly_inserted (sheet env) cafe card_fields [] /\
  delivery_attempts (trace (snd (handle_save env manager (session cafe)))) =
  [101; 102]%Z.
Proof.
  cbv zeta. split; [repeat split|]. vm_compute. reflexivity.
Qed.

(** C1, amended: when the write reports a newly inserted record it returns
    the new row as a dict, which is not [None]; so the save does call the
    notifier, with that dict as the prior snapshot, and the delivery attempts
    of the save are those of the notifier: one per recipient of the
    distribution list, in order, when the sheet has a name column, the
    record's name is a string and every delivery call answers. *)
Theorem new_record_save_calls_notifier (env : Env) (u : User) (w : world)
        c text headers data :
  current_card (user_data w) = Some c ->
  info_message c = inr text ->
  newly_inserted (sheet env) c headers data ->
  let row := zip_dict headers (new_row_values c headers) in
  let notified :=
    send_notification (post env) (id_notification_list env) c (ODict row) u in
  fst (write_on_google_sheets (sheet env) c) = ODict row /\
  ODict row <> ONone /\
  (exists rest,
      trace (snd (handle_save env u w)) =
      trace w ++ [Reply (lit "You saved the place card") NoMarkup;
                  SendMessage text NoMarkup;
                  SheetUpdate (cell_range (length data + 2) (length headers))
                              (new_row_values c headers)]
              ++ snd notified ++ rest /\
      delivery_attempts rest = []) /\
  delivery_attempts (trace (snd (handle_save env u w))) =
    delivery_attempts (trace w) ++ delivery_attempts (snd notified) /\
  (forall name,
      In (lit "name") headers ->
      get c (lit "name") = Some (VStr name) ->
      (forall chat,
          In chat (id_notification_list env) ->
          exists r, post env chat
                      (notification_text c u (payload_changes_str c row)
                                         (escape_markdown_v2 name)) = inr r) ->
      delivery_attempts (snd notified) = id_notification_list env).
Proof.
  intros Hc Ht Hi row notified.
  pose proof (write_newly_inserted Hi) as Hw. fold row in Hw.
  split; [now rewrite Hw|]. split; [discriminate|].
  destruct notified as [r nevs] eqn:Hn. subst notified.
  rewrite (handle_save_run env u w Hc Ht Hw Hn), start_run.
  cbn [snd traced trace].
  assert (Hrest : delivery_attempts
            (match r with inl e => [LogError e] | inr _ => [] end ++
             (if existsb (Z.eqb (id u)) (id_list env)
              then [SendMessage (lit "Hi! Choose an action:") MainMenu]
              else [SendMessage (lit "Your ID is not authorized") NoMarkup;
                    LogWarning (lit "Unauthorized ID: " ++ of_Z (id u))])) = []).
  { destruct r, (existsb (Z.eqb (id u)) (id_list env)); reflexivity. }
  split; [|split].
  - eexists. split; [|exact Hrest].
    rewrite <- !app_assoc. cbn [app]. reflexivity.
  - rewrite <- !app_assoc. rewrite !delivery_attempts_app.
    cbn [delivery_attempts flat_map app].
    rewrite <- delivery_attempts_app, Hrest, app_nil_r. reflexivity.
  - intros name Hh Hname Hall.
    assert (Hen : escaped_name (ODict row) = inr (escape_markdown_v2 name)).
    { unfold escaped_name, row. rewrite get_inserted_row by exact Hh.
      unfold get_default. now rewrite Hname. }
    destruct (all_answer_outcomes _ _ _ Hall) as [outs Ho].
    rewrite send_notification_dict in Hn.
    erewrite fan_out_all_answer in Hn; [|exact Hen|exact Ho].
    injection Hn as _ <-. apply delivery_attempts_posts.
Qed.

Lemma new_record_save_calls_notifier_witness :
  fst (write_on_google_sheets empty_sheet cafe) =
  ODict (zip_dict card_fields (new_row_values cafe card_fields)).
Proof.
  refine (proj1 (@new_record_save_calls_notifier
                   (env_with empty_sheet (inr (frame [])) (inr []))
                   manager (session cafe) cafe _ card_fields []
                   eq_refl eq_refl _)).
  repeat split.
Defined.

(* ================================================================== *)
(** * Further properties of the code *)

(** ** Validators *)

(** X1: [validate_name] accepts exactly the non-empty strings whose
    characters all lie in a-z, A-Z, U+0430..U+044F, U+0410..U+042F,
    whitespace or the apostrophe; a final newline gives no way around the
    class, and a name of spaces only is accepted. *)
Theorem validate_name_accepts_exactly (name : pystr) :
  (validate_name name = true <->
   name <> [] /\ forall c, In c name -> name_class c = true) /\
  (forall n, validate_name (repeat 32%N (S n)) = true).
Proof.
  split.
  - rewrite validate_name_spec, Forall_forall. reflexivity.
  - intros n. apply validate_name_spec. split; [discriminate|].
    apply Forall_forall. intros c H. apply repeat_spec in H. now subst.
Qed.

Section RegexNoNewline.
Variable cls : pychar -> bool.
Hypothesis cls_no_newline : cls 10%N = false.

Lemma re_star_dollar_split (s : pystr) :
  re_star_dollar cls s = true <->
  exists body, forallb cls body = true /\ (s = body \/ s = body ++ [10%N]).
Proof.
  induction s as [|c r IH].
  - split; [intros _; exists []; auto|reflexivity].
  - cbn [re_star_dollar]. rewrite orb_true_iff, andb_true_iff, IH. split.
    + intros [[Hc (body & Hb & Hs)]|Hd].
      * exists (c :: body). cbn [forallb]. rewrite Hc, Hb. split; [reflexivity|].
        destruct Hs as [->| ->]; [now left | now right].
      * destruct r as [|d r]; [|exfalso; revert Hd; simpl;
          destruct c as [|p]; [discriminate|];
          do 4 (try destruct p as [p|p|]); discriminate].
        rewrite at_dollar_one in Hd. apply N.eqb_eq in Hd. subst c.
        exists []. split; [reflexivity | now right].
    + intros (body & Hb & Hs). destruct body as [|b body].
      * right. destruct Hs as [Hs|Hs]; [discriminate|].
        cbn in Hs. injection Hs as -> ->. reflexivity.
      * left. cbn [forallb] in Hb. apply andb_true_iff in Hb.
        destruct Hb as [Hb1 Hb2].
        destruct Hs as [Hs|Hs]; cbn in Hs; injection Hs as -> ->;
          (split; [assumption|]); exists body; auto.
Qed.

Lemma re_match_plus_dollar_split (s : pystr) :
  re_match_plus_dollar cls s = true <->
  exists body, body <> [] /\ forallb cls body = true /\
               (s = body \/ s = body ++ [10%N]).
Proof.
  destruct s as [|c r]; cbn [re_match_plus_dollar].
  - split; [discriminate|]. intros (body & Hne & _ & [H|H]).
    + congruence.
    + destruct body; discriminate.
  - rewrite andb_true_iff, re_star_dollar_split. split.
    + intros [Hc (body & Hb & Hs)]. exists (c :: body).
      split; [discriminate|]. cbn [forallb]. rewrite Hc, Hb.
      split; [reflexivity|]. destruct Hs as [->| ->]; [now left|now right].
    + intros (body & Hne & Hb & Hs). destruct body as [|b body]; [congruence|].
      cbn [forallb] in Hb. apply andb_true_iff in Hb. destruct Hb as [Hb1 Hb2].
      destruct Hs as [Hs|Hs]; cbn in Hs; injection Hs as -> ->;
        (split; [assumption|]); exists body; auto.
Qed.
End RegexNoNewline.

Lemma after_literal_spec (p s rest : pystr) :
  after_literal p s = Some rest <-> s = p ++ rest.
Proof.
  revert s. induction p as [|a p IH]; intros s; simpl.
  - split; [now intros [= ->] | now intros ->].
  - destruct s as [|b s]; [split; discriminate|].
    destruct (N.eqb_spec a b) as [->|N].
    + rewrite IH. split; [now intros -> | now intros [= ->]].
    + split; [discriminate | intros [= ? _]; congruence].
Qed.

(** X2: [validate_google_maps] accepts exactly the prefix
    [https://maps.app.goo.gl/] followed by one or more ASCII letters or
    digits, and the same followed by one newline (the [$] of the pattern
    stops before a final newline). *)
Theorem validate_google_maps_accepts_exactly (url : pystr) :
  validate_google_maps url = true <->
  exists ident,
    ident <> [] /\ (forall c, In c ident -> alnum_class c = true) /\
    (url = maps_prefix ++ ident \/ url = maps_prefix ++ ident ++ [10%N]).
Proof.
  unfold validate_google_maps.
  destruct (after_literal maps_prefix url) as [rest|] eqn:E.
  - apply after_literal_spec in E. subst url.
    rewrite re_match_plus_dollar_split by reflexivity.
    split; intros (ident & Hne & Hc & Hs); exists ident; (split; [exact Hne|]).
    + split; [now apply forallb_forall|].
      destruct Hs as [->| ->]; [now left|now right].
    + split; [now apply forallb_forall|].
      destruct Hs as [Hs|Hs]; apply app_inv_head in Hs; auto.
  - split; [discriminate|]. intros (ident & _ & _ & [H|H]);
      apply after_literal_spec in H; congruence.
Qed.

(** ** Escaping *)

Lemma escape_cons (c : pychar) (s : pystr) :
  escape_markdown_v2 (c :: s) =
  (if reserved c then [92%N; c] else [c]) ++ escape_markdown_v2 s.
Proof. reflexivity. Qed.

Lemma reserved_backslash : reserved 92%N = true.
Proof. reflexivity. Qed.

(** X3: [escape_markdown_v2] puts a backslash before each of the eighteen
    reserved characters and the backslash, and before nothing else: the
    result is well escaped, reading it back gives the text, no two texts
    escape to the same string, and a text without reserved characters is
    unchanged. *)
Theorem escape_markdown_v2_sound (text : pystr) :
  well_escaped (escape_markdown_v2 text) /\
  unescape (escape_markdown_v2 text) = text /\
  (forall other, escape_markdown_v2 other = escape_markdown_v2 text ->
                 other = text) /\
  length (escape_markdown_v2 text) =
    length text + length (filter reserved text) /\
  ((forall c, In c text -> reserved c = false) ->
   escape_markdown_v2 text = text).
Proof.
  assert (R : forall t, unescape (escape_markdown_v2 t) = t).
  { induction t as [|c t IH]; [reflexivity|].
    rewrite escape_cons. destruct (reserved c) eqn:E.
    - cbn [app unescape]. rewrite N.eqb_refl. now rewrite IH.
    - cbn [app unescape]. destruct (N.eqb_spec c 92) as [->|_].
      + rewrite reserved_backslash in E. discriminate.
      + now rewrite IH. }
  split; [|split; [apply R|split; [|split]]].
  - induction text as [|c t IH]; [constructor|].
    rewrite escape_cons. destruct (reserved c) eqn:E; cbn [app];
      now constructor.
  - intros other H. rewrite <- (R other), H. apply R.
  - induction text as [|c t IH]; [reflexivity|].
    rewrite escape_cons. cbn [filter].
    destruct (reserved c); cbn [app length]; rewrite IH; lia.
  - induction text as [|c t IH]; intros H; [reflexivity|].
    rewrite escape_cons, (H c (or_introl eq_refl)), IH; [reflexivity|].
    intros; apply H; now right.
Qed.

(** ** Entering a value *)

Ltac run_edit :=
  cbv beta iota zeta delta
      [the_field_to_update pop_field_to_update assign_field
       setdefault_field_to_update apply_new_value];
  run_monad.

Lemma set_set_same {V} (d : dict V) k v : set (set d k v) k v = set d k v.
Proof.
  induction d as [|[k' v'] r IH]; simpl.
  - now rewrite pystr_eqb_refl.
  - destruct (PyStr.eqb k k') eqn:E; simpl; rewrite E; [reflexivity|].
    now rewrite IH.
Qed.

(** The session after a value was stored under a field. *)
Lemma apply_new_value_run (w : world) c pending field x :
  current_card (user_data w) = Some c ->
  field_to_update (user_data w) = Some pending ->
  apply_new_value field x w =
  let stored :=
    {| user_data := {| current_card := Some (set c field x);
                       field_to_update := None;
                       photos_received := photos_received (user_data w) |};
       bot_current_card_id := bot_current_card_id w;
       trace := trace w |} in
  match info_message (set c field x) with
  | inr text =>
      (inr tt,
       traced stored [SendMessage text NoMarkup;
                      SendMessage (lit "Choose a field to edit:") EditBar])
  | inl e => (inl e, stored)
  end.
Proof.
  intros Hc Hf. cbv zeta.
  repeat (progress (run_edit; rewrite ?Hc, ?Hf, ?set_set_same)).
  destruct (info_message (set c field x)); run_monad;
    rewrite <- ?app_assoc; reflexivity.
Qed.

Ltac run_body :=
  cbv beta iota zeta delta [the_field_to_update]; run_monad.

Lemma try_apply_new_value (w : world) c pending field x :
  current_card (user_data w) = Some c ->
  field_to_update (user_data w) = Some pending ->
  try_except (apply_new_value field x)
             (fun e => emit [SendMessage (lit "Error: " ++ exn_str e) NoMarkup]) w =
  (inr tt,
   {| user_data := {| current_card := Some (set c field x);
                      field_to_update := None;
                      photos_received := photos_received (user_data w) |};
      bot_current_card_id := bot_current_card_id w;
      trace := trace w ++
               match info_message (set c field x) with
               | inr text => [SendMessage text NoMarkup;
                              SendMessage (lit "Choose a field to edit:") EditBar]
               | inl e => [SendMessage (lit "Error: " ++ exn_str e) NoMarkup]
               end |}).
Proof.
  intros Hc Hf. unfold try_except.
  rewrite (apply_new_value_run w field x Hc Hf). cbv zeta.
  destruct (info_message (set c field x)); run_monad; reflexivity.
Qed.

Lemma handle_new_value_table (v : pystr) (w : world) c field :
  is_show_information v = false ->
  current_card (user_data w) = Some c ->
  field_to_update (user_data w) = Some field ->
  mem c field = true ->
  handle_new_value v w =
  let refuse := fun text markup => (inr tt, traced w [SendMessage text markup]) in
  let store := fun x =>
    try_except (apply_new_value field (VStr x))
      (fun e => emit [SendMessage (lit "Error: " ++ exn_str e) NoMarkup]) w in
  if PyStr.eqb field (lit "name") && negb (validate_name v)
  then refuse invalid_name_text NoMarkup
  else if PyStr.eqb field (lit "type") then
    if negb (validate_type v) then refuse invalid_type_text TypeChoices
    else store v
  else if PyStr.eqb field (lit "photos") then refuse invalid_photos_text NoMarkup
  else if PyStr.eqb field (lit "google_map") && negb (validate_google_maps v)
  then refuse invalid_map_text NoMarkup
  else if existsb (PyStr.eqb field) [lit "phone_numbers"; lit "Whatsapp"]
  then store (normalize_phone v)
  else store v.
Proof.
  intros Hs Hc Hf Hm. unfold handle_new_value. rewrite Hs.
  unfold try_except at 1.
  repeat (progress (run_body; rewrite ?Hc, ?Hf, ?Hm)).
  repeat match goal with
         | |- context [if ?b then _ else _] => destruct b
         end; reflexivity.
Qed.

Lemma handle_new_value_no_card (v : pystr) (w : world) :
  is_show_information v = false ->
  current_card (user_data w) = None ->
  handle_new_value v w =
  (inr tt, traced w [SendMessage (lit "Error: 'current_card'") NoMarkup]).
Proof.
  intros Hs Hc. unfold handle_new_value. rewrite Hs.
  repeat (progress (run_body; rewrite ?Hc)). reflexivity.
Qed.

Lemma handle_new_value_no_field (v : pystr) (w : world) c :
  is_show_information v = false ->
  current_card (user_data w) = Some c ->
  field_to_update (user_data w) = None ->
  handle_new_value v w =
  (inr tt, traced w [SendMessage (lit "Error: 'field_to_update'") NoMarkup]).
Proof.
  intros Hs Hc Hf. unfold handle_new_value. rewrite Hs.
  repeat (progress (run_body; rewrite ?Hc, ?Hf)). reflexivity.
Qed.

Lemma handle_new_value_unknown_field (v : pystr) (w : world) c field :
  is_show_information v = false ->
  current_card (user_data w) = Some c ->
  field_to_update (user_data w) = Some field ->
  mem c field = false ->
  handle_new_value v w =
  (inr tt, traced w [LogWarning (lit "Invalid field: " ++ field);
                     SendMessage (lit "Invalid field: " ++ field) NoMarkup]).
Proof.
  intros Hs Hc Hf Hm. unfold handle_new_value. rewrite Hs.
  repeat (progress (run_body; rewrite ?Hc, ?Hf, ?Hm)).
  now rewrite <- app_assoc.
Qed.

(** X4: a text other than "show information" never makes
    [handle_new_value] raise, whatever the session holds: every failure
    inside it ends as a message, and the last thing the handler does is send
    the user a message. *)
Theorem handle_new_value_always_answers (v : pystr) (w : world) :
  is_show_information v = false ->
  fst (handle_new_value v w) = inr tt /\
  exists evs text markup,
    trace (snd (handle_new_value v w)) =
    trace w ++ evs ++ [SendMessage text markup].
Proof.
  intros Hs.
  destruct (current_card (user_data w)) as [c|] eqn:Hc.
  2:{ rewrite handle_new_value_no_card by assumption.
      split; [reflexivity|]. now exists [], (lit "Error: 'current_card'"), NoMarkup. }
  destruct (field_to_update (user_data w)) as [f|] eqn:Hf.
  2:{ rewrite (handle_new_value_no_field v w Hs Hc Hf).
      split; [reflexivity|].
      now exists [], (lit "Error: 'field_to_update'"), NoMarkup. }
  destruct (mem c f) eqn:Hm.
  2:{ rewrite (handle_new_value_unknown_field v w Hs Hc Hf Hm).
      split; [reflexivity|].
      now exists [LogWarning (lit "Invalid field: " ++ f)],
                 (lit "Invalid field: " ++ f), NoMarkup. }
  rewrite (handle_new_value_table v w Hs Hc Hf Hm). cbv beta zeta.
  rewrite !(try_apply_new_value w f _ Hc Hf).
  repeat match goal with
         | |- context [if ?b then _ else _] => destruct b
         end;
    (split; [reflexivity|]); cbn [snd traced trace];
    try (eexists [], _, _; reflexivity);
    match goal with
    | |- context [info_message ?x] => destruct (info_message x)
    end;
    first [ eexists [_], _, _; reflexivity | eexists [], _, _; reflexivity ].
Qed.

(** X5: whatever the text and the session, [handle_new_value] either
    leaves [user_data] as it was, or replaces, in the card, exactly the value
    of the field that was selected (by the text, or by its normalized form)
    and clears the selection; the pending photos stay. *)
Theorem handle_new_value_changes_one_field (v : pystr) (w : world) :
  user_data (snd (handle_new_value v w)) = user_data w \/
  exists c field x,
    current_card (user_data w) = Some c /\
    field_to_update (user_data w) = Some field /\
    mem c field = true /\
    (x = v \/ x = normalize_phone v) /\
    user_data (snd (handle_new_value v w)) =
    {| current_card := Some (set c field (VStr x));
       field_to_update := None;
       photos_received := photos_received (user_data w) |}.
Proof.
  destruct (is_show_information v) eqn:Hs.
  { left. unfold handle_new_value. rewrite Hs. run_monad.
    destruct (current_card (user_data w)) as [c|]; [|reflexivity].
    run_monad. destruct (info_message c); reflexivity. }
  destruct (current_card (user_data w)) as [c|] eqn:Hc.
  2:{ left. now rewrite handle_new_value_no_card. }
  destruct (field_to_update (user_data w)) as [f|] eqn:Hf.
  2:{ left. now rewrite (handle_new_value_no_field v w Hs Hc Hf). }
  destruct (mem c f) eqn:Hm.
  2:{ left. now rewrite (handle_new_value_unknown_field v w Hs Hc Hf Hm). }
  rewrite (handle_new_value_table v w Hs Hc Hf Hm). cbv beta zeta.
  rewrite !(try_apply_new_value w f _ Hc Hf).
  repeat match goal with
         | |- context [if ?b then _ else _] => destruct b
         end;
    cbn [snd traced user_data];
    first [ left; reflexivity
          | right; exists c, f, v; repeat split; auto; fail
          | right; exists c, f, (normalize_phone v); repeat split; auto ].
Qed.

(** Decides the comparisons of two literals of the source. *)
Ltac eval_literals :=
  repeat match goal with
         | |- context [PyStr.eqb (lit ?a) (lit ?b)] =>
             let r := eval vm_compute in (PyStr.eqb (lit a) (lit b)) in
             change (PyStr.eqb (lit a) (lit b)) with r
         end;
  cbn [andb orb negb existsb].

(** X6: the round trip of an edit.  With a field selected that the card
    has, a text that the rule of the field lets through is stored under that
    field (normalized for the two phone fields), every other field keeps its
    value, the selection is cleared, and the updated card and the edit bar are
    shown. *)
Theorem handle_new_value_stores (v : pystr) (w : world) c field text x :
  is_show_information v = false ->
  current_card (user_data w) = Some c ->
  field_to_update (user_data w) = Some field ->
  mem c field = true ->
  info_message c = inr text ->
  (field = lit "name" /\ validate_name v = true /\ x = v) \/
  (field = lit "type" /\ validate_type v = true /\ x = v) \/
  (field = lit "google_map" /\ validate_google_maps v = true /\ x = v) \/
  (In field [lit "phone_numbers"; lit "Whatsapp"] /\ x = normalize_phone v) \/
  (~ In field [lit "name"; lit "type"; lit "photos"; lit "google_map";
               lit "phone_numbers"; lit "Whatsapp"] /\ x = v) ->
  exists text',
    info_message (set c field (VStr x)) = inr text' /\
    handle_new_value v w =
    (inr tt,
     {| user_data := {| current_card := Some (set c field (VStr x));
                        field_to_update := None;
                        photos_received := photos_received (user_data w) |};
        bot_current_card_id := bot_current_card_id w;
        trace := trace w ++
                 [SendMessage text' NoMarkup;
                  SendMessage (lit "Choose a field to edit:") EditBar] |}) /\
    get (set c field (VStr x)) field = Some (VStr x) /\
    forall k, k <> field -> get (set c field (VStr x)) k = get c k.
Proof.
  intros Hs Hc Hf Hm Ht Hrule.
  destruct (info_message_set c field (VStr x) Ht) as [text' Ht'].
  exists text'. split; [exact Ht'|].
  split; [|split; [apply get_set_same | intros; now apply get_set_other]].
  rewrite (handle_new_value_table v w Hs Hc Hf Hm). cbv beta zeta.
  rewrite !(try_apply_new_value w field _ Hc Hf).
  destruct Hrule
    as [(-> & Hv & ->)|[(-> & Hv & ->)|[(-> & Hv & ->)|[(Hin & ->)|(Hn & ->)]]]].
  - rewrite Hv. eval_literals. now rewrite Ht'.
  - rewrite Hv. eval_literals. now rewrite Ht'.
  - rewrite Hv. eval_literals. now rewrite Ht'.
  - destruct Hin as [<-|[<-|[]]]; eval_literals; now rewrite Ht'.
  - assert (E : forall k, In k [lit "name"; lit "type"; lit "photos";
                                lit "google_map"; lit "phone_numbers";
                                lit "Whatsapp"] -> PyStr.eqb field k = false).
    { intros k Hk. apply pystr_eqb_neq. intros ->. now apply Hn. }
    cbn [existsb].
    rewrite !E by (cbn [In]; tauto). cbn [andb orb]. now rewrite Ht'.
Qed.

Lemma handle_new_value_stores_witness :
  exists text',
    info_message (set cafe (lit "phone_numbers") (VStr (lit "+50688887777")))
    = inr text' /\
    user_data (snd (handle_new_value (lit "8888 7777")
                      (editing cafe (lit "phone_numbers")))) =
    {| current_card :=
         Some (set cafe (lit "phone_numbers") (VStr (lit "+50688887777")));
       field_to_update := None;
       photos_received := None |}.
Proof.
  destruct (@handle_new_value_stores
              (lit "8888 7777")
              (editing cafe (lit "phone_numbers"))
              cafe (lit "phone_numbers") _ (lit "+50688887777")
              eq_refl eq_refl eq_refl eq_refl eq_refl)
    as (text' & H1 & H2 & _).
  - right. right. right. left. split; [now left | reflexivity].
  - exists text'. split; [exact H1 | now rewrite H2].
Defined.

(** X7: a text the rule of the selected field refuses is answered by that
    rule's message and changes nothing: the session is the same, with the
    same field still awaiting a value.  A text sent for the photos field is
    always refused. *)
Theorem handle_new_value_refuses (v : pystr) (w : world) c field :
  is_show_information v = false ->
  current_card (user_data w) = Some c ->
  field_to_update (user_data w) = Some field ->
  mem c field = true ->
  let refused := fun text markup =>
    handle_new_value v w = (inr tt, traced w [SendMessage text markup]) /\
    state_of END (user_data (snd (handle_new_value v w))) = FieldSelected in
  (field = lit "name" -> validate_name v = false ->
   refused invalid_name_text NoMarkup) /\
  (field = lit "type" -> validate_type v = false ->
   refused invalid_type_text TypeChoices) /\
  (field = lit "photos" -> refused invalid_photos_text NoMarkup) /\
  (field = lit "google_map" -> validate_google_maps v = false ->
   refused invalid_map_text NoMarkup).
Proof.
  intros Hs Hc Hf Hm refused. subst refused. cbv beta.
  rewrite (handle_new_value_table v w Hs Hc Hf Hm). cbv beta zeta.
  assert (St : state_of END (user_data w) = FieldSelected)
    by (unfold state_of; now rewrite Hc, Hf).
  split; [|split; [|split]].
  - intros E V. subst field. rewrite V. eval_literals. now split.
  - intros E V. subst field. rewrite V. eval_literals. now split.
  - intros E. subst field. eval_literals. now split.
  - intros E V. subst field. rewrite V. eval_literals. now split.
Qed.

Lemma handle_new_value_refuses_witness :
  handle_new_value (lit "Bakery") (editing cafe (lit "type")) =
  (inr tt,
   traced (editing cafe (lit "type")) [SendMessage invalid_type_text TypeChoices]).
Proof.
  refine (proj1 (proj1 (proj2
    (@handle_new_value_refuses (lit "Bakery") (editing cafe (lit "type"))
       cafe (lit "type") eq_refl eq_refl eq_refl eq_refl)) eq_refl eq_refl)).
Defined.

(** X8: the missing keys of [handle_new_value].  With no card in the
    session the user is told [Error: 'current_card']; with a card and no
    field selected, [Error: 'field_to_update']; with a selected field that the
    card does not have, [Invalid field: ...], and that selection stays.  In
    all three the session is unchanged. *)
Theorem handle_new_value_missing_keys (v : pystr) (w : world) :
  is_show_information v = false ->
  (current_card (user_data w) = None ->
   handle_new_value v w =
   (inr tt, traced w [SendMessage (lit "Error: 'current_card'") NoMarkup])) /\
  (forall c,
      current_card (user_data w) = Some c ->
      field_to_update (user_data w) = None ->
      handle_new_value v w =
      (inr tt, traced w [SendMessage (lit "Error: 'field_to_update'") NoMarkup])) /\
  (forall c field,
      current_card (user_data w) = Some c ->
      field_to_update (user_data w) = Some field ->
      mem c field = false ->
      handle_new_value v w =
      (inr tt, traced w [LogWarning (lit "Invalid field: " ++ field);
                         SendMessage (lit "Invalid field: " ++ field) NoMarkup]) /\
      field_to_update (user_data (snd (handle_new_value v w))) = Some field).
Proof.
  intros Hs. split; [intros Hc; exact (handle_new_value_no_card v w Hs Hc)|].
  split; [intros c Hc Hf; exact (handle_new_value_no_field v w Hs Hc Hf)|].
  intros c field Hc Hf Hm.
  rewrite (handle_new_value_unknown_field v w Hs Hc Hf Hm).
  split; [reflexivity | exact Hf].
Qed.

Lemma handle_new_value_missing_keys_witness :
  handle_new_value (lit "9-5") idle =
  (inr tt, traced idle [SendMessage (lit "Error: 'current_card'") NoMarkup]).
Proof.
  refine (proj1 (@handle_new_value_missing_keys (lit "9-5") idle eq_refl) eq_refl).
Defined.

(** X9: "show information", in any mix of upper and lower case, is never
    taken as a value: the handler is then [show_place_card] alone, so the
    session is unchanged even while a field awaits a value, the card is sent
    when it can be displayed, and, this branch being outside the [try], a
    session without a card makes the handler raise [KeyError]. *)
Theorem show_information_is_a_command (v : pystr) (w : world) :
  map lower_ascii v = lit "show information" ->
  handle_new_value v w = show_place_card w /\
  user_data (snd (handle_new_value v w)) = user_data w /\
  (forall c text,
      current_card (user_data w) = Some c -> info_message c = inr text ->
      handle_new_value v w = (inr tt, traced w [SendMessage text NoMarkup])) /\
  (current_card (user_data w) = None ->
   handle_new_value v w = (inl (KeyError (lit "current_card")), w)).
Proof.
  intros Hv.
  assert (Hs : is_show_information v = true)
    by (unfold is_show_information; rewrite Hv; apply pystr_eqb_refl).
  unfold handle_new_value. rewrite Hs.
  split; [reflexivity|]. split; [|split].
  - run_monad. destruct (current_card (user_data w)) as [c|]; [|reflexivity].
    run_monad. destruct (info_message c); reflexivity.
  - intros c text Hc Ht. repeat (progress (run_monad; rewrite ?Hc, ?Ht)).
    reflexivity.
  - intros Hc. repeat (progress (run_monad; rewrite ?Hc)). reflexivity.
Qed.

Lemma show_information_is_a_command_witness :
  user_data (snd (handle_new_value (lit "Show Information")
                    (editing cafe (lit "phone_numbers")))) =
  user_data (editing cafe (lit "phone_numbers")).
Proof.
  refine (proj1 (proj2
    (@show_information_is_a_command (lit "Show Information")
       (editing cafe (lit "phone_numbers")) eq_refl))).
Defined.

(** ** Buttons *)

(** X10: selecting a field.  The callback data of a field button becomes
    the selection only when nothing is selected yet: with a field already
    awaiting a value the earlier selection stays and the prompt names it, not
    the button pressed.  No card is needed for either. *)
Theorem button_selects_once (data : pystr) (w : world) :
  existsb (PyStr.eqb data) valid_types = false ->
  let field := match field_to_update (user_data w) with
               | Some pending => pending
               | None => data
               end in
  button data w =
  (inr tt,
   {| user_data := {| current_card := current_card (user_data w);
                      field_to_update := Some field;
                      photos_received := photos_received (user_data w) |};
      bot_current_card_id := bot_current_card_id w;
      trace := trace w ++
               [if PyStr.eqb field (lit "type")
                then SendMessage (lit "Choose a type:") TypeChoices
                else SendMessage (lit "Enter new value for " ++ field) NoMarkup] |}).
Proof.
  intros Hd field. subst field. unfold button. rewrite Hd.
  destruct (field_to_update (user_data w)) as [pending|] eqn:Hf;
    repeat (progress (run_edit; rewrite ?Hf)).
  - destruct (PyStr.eqb pending (lit "type")); run_monad;
      destruct w as [[cc ff pp] b t]; cbn in *; subst; reflexivity.
  - destruct (PyStr.eqb data (lit "type")); run_monad; reflexivity.
Qed.

Lemma button_selects_once_witness :
  field_to_update (user_data (snd (button (lit "hours_of_operation")
                                          (editing cafe (lit "name"))))) =
  Some (lit "name").
Proof.
  rewrite (@button_selects_once (lit "hours_of_operation")
                                (editing cafe (lit "name")) eq_refl).
  reflexivity.
Defined.

(** X11: choosing a type.  One of the three type buttons writes the type
    into the card whatever field is awaiting a value, and drops that
    selection; with nothing selected the type is written all the same and the
    handler then raises [KeyError] without a message; with no card it raises
    before changing anything. *)
Theorem button_type_choice (data : pystr) (w : world) :
  existsb (PyStr.eqb data) valid_types = true ->
  (forall c pending text,
      current_card (user_data w) = Some c ->
      field_to_update (user_data w) = Some pending ->
      info_message (set c (lit "type") (VStr data)) = inr text ->
      button data w =
      (inr tt,
       {| user_data := {| current_card := Some (set c (lit "type") (VStr data));
                          field_to_update := None;
                          photos_received := photos_received (user_data w) |};
          bot_current_card_id := bot_current_card_id w;
          trace := trace w ++
                   [SendMessage (lit "Type updated to " ++ data) NoMarkup;
                    SendMessage text NoMarkup;
                    SendMessage (lit "Choose a field to edit:") EditBar] |})) /\
  (forall c,
      current_card (user_data w) = Some c ->
      field_to_update (user_data w) = None ->
      button data w =
      (inl (KeyError (lit "field_to_update")),
       {| user_data := {| current_card := Some (set c (lit "type") (VStr data));
                          field_to_update := None;
                          photos_received := photos_received (user_data w) |};
          bot_current_card_id := bot_current_card_id w;
          trace := trace w |})) /\
  (current_card (user_data w) = None ->
   button data w = (inl (KeyError (lit "current_card")), w)).
Proof.
  intros Hd. unfold button. rewrite Hd. split; [|split].
  - intros c pending text Hc Hf Ht.
    repeat (progress (run_edit; rewrite ?Hc, ?Hf, ?Ht)).
    now rewrite <- !app_assoc.
  - intros c Hc Hf.
    repeat (progress (run_edit; rewrite ?Hc, ?Hf)). reflexivity.
  - intros Hc. repeat (progress (run_edit; rewrite ?Hc)). reflexivity.
Qed.

Lemma button_type_choice_witness :
  button (lit "Adventures") (showing cafe) =
  (inl (KeyError (lit "field_to_update")),
   showing (set cafe (lit "type") (VStr (lit "Adventures")))).
Proof.
  refine (proj1 (proj2
    (@button_type_choice (lit "Adventures") (showing cafe) eq_refl))
    cafe eq_refl eq_refl).
Defined.

(** ** Routing of text messages, exit and save *)

Lemma at_dollar_spec (rest : pystr) :
  at_dollar rest = true <-> rest = [] \/ rest = [10%N].
Proof.
  destruct rest as [|c [|d r]].
  - split; auto.
  - rewrite at_dollar_one, N.eqb_eq. split.
    + intros ->. now right.
    + intros [H|H]; [discriminate | now injection H].
  - split.
    + simpl. destruct c as [|p]; [discriminate|].
      do 4 (try destruct p as [p|p|]); discriminate.
    + intros [H|H]; discriminate.
Qed.

Lemma regex_word_spec (word s : pystr) :
  regex_word word s = true <-> s = word \/ s = word ++ [10%N].
Proof.
  unfold regex_word. destruct (after_literal word s) as [rest|] eqn:E.
  - apply after_literal_spec in E. subst s. rewrite at_dollar_spec.
    split; intros [H|H].
    + subst. left. now rewrite app_nil_r.
    + subst. now right.
    + left. rewrite <- (app_nil_r word) in H at 2. now apply app_inv_head in H.
    + right. now apply app_inv_head in H.
  - split; [discriminate|]. intros [H|H].
    + rewrite <- (app_nil_r word) in H. apply after_literal_spec in H. congruence.
    + apply after_literal_spec in H. congruence.
Qed.

Lemma lead_of_slash (m : text_message) :
  lead_of m <> Plain -> exists rest, text m = 47%N :: rest.
Proof.
  unfold lead_of. destruct (text m) as [|c rest]; [congruence|].
  destruct (N.eqb c 47) eqn:E; [|congruence].
  apply N.eqb_eq in E. subst c. eauto.
Qed.

Lemma is_the_command_spec (name : pystr) (m : text_message) :
  is_the_command name m = true <-> lead_of m = Command name.
Proof.
  unfold is_the_command. destruct (lead_of m) as [|n|].
  - split; discriminate.
  - split.
    + intros H. apply pystr_eqb_eq in H. now subst.
    + intros [= ->]. apply pystr_eqb_refl.
  - split; discriminate.
Qed.

Lemma is_command_spec (m : text_message) :
  is_command m = false <-> lead_of m = Plain.
Proof.
  unfold is_command. destruct (lead_of m); split; congruence.
Qed.

(** X12: which handler a text message reaches.  The [start] command always
    goes to [start].  The words Exit and Save (alone, or followed by one
    newline) always go to [handle_exit] and [handle_save], also when the
    message is a reply.  Of the other non-empty texts, every reply goes to
    [handle_company_name], a command included; of those that are no reply,
    the ones that are no command go to [handle_new_value], the [finish]
    command goes to [finish_photo] while photos are collected, and every
    other command reaches no handler.  So neither word, no reply and no
    command is ever stored as a value. *)
Theorem route_text_table (cv : conv) (m : text_message) :
  let is_word := fun word => text m = lit word \/ text m = lit word ++ [10%N] in
  let route := route_text cv m in
  (route = Some ToStart <-> lead_of m = Command (lit "start")) /\
  (route = Some ToExit <-> is_word "Exit"%string) /\
  (route = Some ToSave <-> is_word "Save"%string) /\
  (route = Some ToCompanyName <->
   text m <> [] /\ lead_of m <> Command (lit "start") /\
   ~ is_word "Exit"%string /\ ~ is_word "Save"%string /\
   is_reply m = true) /\
  (route = Some ToNewValue <->
   text m <> [] /\ ~ is_word "Exit"%string /\ ~ is_word "Save"%string /\
   is_reply m = false /\ lead_of m = Plain) /\
  (route = Some ToFinish <->
   is_reply m = false /\ lead_of m = Command (lit "finish") /\
   cv = Collecting) /\
  (route = None <->
   text m = [] \/
   (is_reply m = false /\ lead_of m <> Plain /\
    lead_of m <> Command (lit "start") /\
    ~ (lead_of m = Command (lit "finish") /\ cv = Collecting))).
Proof.
  cbv zeta beta. unfold route_text.
  pose proof (regex_word_spec (lit "Exit") (text m)) as HE.
  pose proof (regex_word_spec (lit "Save") (text m)) as HS.
  pose proof (is_the_command_spec (lit "start") m) as CS.
  pose proof (is_the_command_spec (lit "finish") m) as CF.
  pose proof (is_command_spec m) as CC.
  pose proof (lead_of_slash m) as SL.
  assert (D : Command (lit "start") <> Command (lit "finish")) by discriminate.
  assert (ES : ~ ((text m = lit "Exit" \/ text m = lit "Exit" ++ [10%N]) /\
                  (text m = lit "Save" \/ text m = lit "Save" ++ [10%N]))).
  { intros [[E|E] [S|S]]; rewrite E in S; discriminate. }
  assert (WE : text m = lit "Exit" \/ text m = lit "Exit" ++ [10%N] ->
               lead_of m = Plain).
  { unfold lead_of. intros [E|E]; rewrite E; reflexivity. }
  assert (WS : text m = lit "Save" \/ text m = lit "Save" ++ [10%N] ->
               lead_of m = Plain).
  { unfold lead_of. intros [E|E]; rewrite E; reflexivity. }
  assert (NE : text m = [] ->
               lead_of m = Plain /\
               ~ (text m = lit "Exit" \/ text m = lit "Exit" ++ [10%N]) /\
               ~ (text m = lit "Save" \/ text m = lit "Save" ++ [10%N])).
  { unfold lead_of. intros E. rewrite E. split; [reflexivity|].
    split; intros [H|H]; vm_compute in H; discriminate H. }
  assert (T : text m = [] \/ text m <> [])
    by (destruct (text m); [now left | right; discriminate]).
  set (L := lead_of m) in *.
  set (WordE := text m = lit "Exit" \/ text m = lit "Exit" ++ [10%N]) in *.
  set (WordS := text m = lit "Save" \/ text m = lit "Save" ++ [10%N]) in *.
  destruct (text m) as [|c r] eqn:Tm.
  { destruct (NE eq_refl) as (P & N1 & N2).
    repeat split; try discriminate; try tauto; try congruence.
    intros (_ & H & _). rewrite P in H. discriminate. }
  clear NE T SL.
  assert (Tn : c :: r <> []) by discriminate.
  revert HE HS. generalize (regex_word (lit "Exit") (c :: r)).
  generalize (regex_word (lit "Save") (c :: r)).
  intros bs be HE HS.
  destruct (is_the_command (lit "start") m), be, bs, (is_reply m),
    (is_command m), cv, (is_the_command (lit "finish") m);
    cbn [negb];
    repeat split; try discriminate; try tauto; try congruence;
    intuition (try discriminate; try congruence).
Qed.

Lemma handle_exit_run (env : Env) (u : User) (w : world) :
  handle_exit env u w =
  (inr tt,
   {| user_data := cleared;
      bot_current_card_id := bot_current_card_id w;
      trace := trace w ++
               Reply (lit "You have returned to the main menu") NoMarkup ::
               (if existsb (Z.eqb (id u)) (id_list env)
                then [SendMessage (lit "Hi! Choose an action:") MainMenu]
                else [SendMessage (lit "Your ID is not authorized") NoMarkup;
                      LogWarning (lit "Unauthorized ID: " ++ of_Z (id u))]) |}).
Proof.
  unfold handle_exit. unfold bind at 1. cbn [put_user_data].
  unfold bind. cbn [emit fst snd]. rewrite start_run.
  unfold traced, with_user_data. cbn [user_data bot_current_card_id trace].
  now rewrite <- app_assoc.
Qed.

(** X13: Exit discards the session.  Whatever the session holds (a field
    awaiting a value, pending photos) and whether or not the message is a
    reply, the text Exit empties [user_data], writes nothing to the sheet,
    posts nothing to the distribution list, and answers with the return
    notice followed by the menu (or the authorization notice); so it is
    whether or not photos are being collected, and whatever entities the
    message carries. *)
Theorem exit_discards_session (env : Env) (u : User) (cv : conv)
        (reply : bool) (e : lead) (w : world) :
  let m := {| text := lit "Exit"; is_reply := reply; entity := e |} in
  let w' := snd (on_text env u cv m w) in
  fst (on_text env u cv m w) = inr tt /\
  user_data w' = cleared /\
  state_of END (user_data w') = Idle /\
  exists evs,
    trace w' =
      trace w ++ Reply (lit "You have returned to the main menu") NoMarkup :: evs /\
    delivery_attempts evs = [] /\
    (forall rng vals, ~ In (SheetUpdate rng vals) evs).
Proof.
  cbv zeta.
  change (on_text env u cv
                  {| text := lit "Exit"; is_reply := reply; entity := e |} w)
    with (handle_exit env u w).
  rewrite handle_exit_run. cbn [fst snd user_data trace].
  repeat split. eexists. split; [reflexivity|].
  destruct (existsb (Z.eqb (id u)) (id_list env)); split; try reflexivity;
    intros rng vals H; cbn in H; intuition discriminate.
Qed.

Lemma handle_save_no_card (env : Env) (u : User) (w : world) :
  current_card (user_data w) = None ->
  handle_save env u w =
  (inl (KeyError (lit "current_card")),
   traced w [Reply (lit "You saved the place card") NoMarkup]).
Proof.
  intros Hc. unfold handle_save.
  repeat (progress (run_monad; rewrite ?Hc)). reflexivity.
Qed.

(** A save of a displayable card returns, with the session cleared. *)
Lemma handle_save_completes (env : Env) (u : User) (w : world) c text :
  current_card (user_data w) = Some c ->
  info_message c = inr text ->
  fst (handle_save env u w) = inr tt /\
  user_data (snd (handle_save env u w)) = cleared /\
  bot_current_card_id (snd (handle_save env u w)) = bot_current_card_id w.
Proof.
  intros Hc Ht.
  destruct (write_on_google_sheets (sheet env) c) as [send evs] eqn:Hw.
  destruct (send_notification (post env) (id_notification_list env) c send u)
    as [r nevs] eqn:Hn.
  rewrite (handle_save_run env u w Hc Ht Hw Hn), start_run.
  repeat split.
Qed.

(** X14: Save without a card.  With no card in the session [handle_save]
    first confirms "You saved the place card" and then raises [KeyError]:
    nothing is written or posted and the session stays as it was.  That is
    the session Exit leaves, and the one a completed save leaves: a Save after
    Exit, or a second Save, is confirmed and does nothing. *)
Theorem save_without_card (env : Env) (u : User) (w : world) :
  (current_card (user_data w) = None ->
   handle_save env u w =
   (inl (KeyError (lit "current_card")),
    traced w [Reply (lit "You saved the place card") NoMarkup])) /\
  handle_save env u (snd (handle_exit env u w)) =
  (inl (KeyError (lit "current_card")),
   traced (snd (handle_exit env u w))
          [Reply (lit "You saved the place card") NoMarkup]) /\
  (forall c text,
      current_card (user_data w) = Some c ->
      info_message c = inr text ->
      handle_save env u (snd (handle_save env u w)) =
      (inl (KeyError (lit "current_card")),
       traced (snd (handle_save env u w))
              [Reply (lit "You saved the place card") NoMarkup])).
Proof.
  split; [apply handle_save_no_card|]. split.
  - apply handle_save_no_card. now rewrite handle_exit_run.
  - intros c text Hc Ht. apply handle_save_no_card.
    destruct (handle_save_completes env u w Hc Ht) as (_ & -> & _).
    reflexivity.
Qed.

(** X15: a save of a card that can be displayed always runs to its end:
    whatever the sheet answers and whatever the delivery channel does (an
    exception of the notifier is caught and logged), the handler returns, the
    session is cleared, and the last message is the menu or the authorization
    notice. *)
Theorem save_runs_to_its_end (env : Env) (u : User) (w : world) c text :
  current_card (user_data w) = Some c ->
  info_message c = inr text ->
  fst (handle_save env u w) = inr tt /\
  user_data (snd (handle_save env u w)) = cleared /\
  state_of END (user_data (snd (handle_save env u w))) = Idle /\
  (forall e nevs,
      send_notification (post env) (id_notification_list env) c
        (fst (write_on_google_sheets (sheet env) c)) u = (inl e, nevs) ->
      In (LogError e) (trace (snd (handle_save env u w)))) /\
  exists evs,
    trace (snd (handle_save env u w)) =
    trace w ++ [Reply (lit "You saved the place card") NoMarkup;
                SendMessage text NoMarkup] ++ evs ++
    (if existsb (Z.eqb (id u)) (id_list env)
     then [SendMessage (lit "Hi! Choose an action:") MainMenu]
     else [SendMessage (lit "Your ID is not authorized") NoMarkup;
           LogWarning (lit "Unauthorized ID: " ++ of_Z (id u))]).
Proof.
  intros Hc Ht.
  destruct (handle_save_completes env u w Hc Ht) as (H1 & H2 & _).
  split; [exact H1|]. split; [exact H2|]. split; [now rewrite H2|].
  destruct (write_on_google_sheets (sheet env) c) as [send evs] eqn:Hw.
  destruct (send_notification (post env) (id_notification_list env) c send u)
    as [r nevs] eqn:Hn.
  rewrite (handle_save_run env u w Hc Ht Hw Hn), start_run.
  cbn [fst snd traced trace]. split.
  - intros e nevs' H. rewrite Hn in H. injection H as -> _.
    apply in_or_app. left.
    repeat (apply in_or_app; right). now left.
  - exists (evs ++ nevs ++ match r with inl e => [LogError e] | inr _ => [] end).
    now rewrite <- !app_assoc.
Qed.

Lemma save_runs_to_its_end_witness :
  user_data (snd (handle_save
                    (env_with broken_sheet (inr (frame [])) (inr []))
                    manager (session cafe))) = cleared.
Proof.
  refine (proj1 (proj2
    (@save_runs_to_its_end
       (env_with broken_sheet (inr (frame [])) (inr []))
       manager (session cafe) cafe _ eq_refl eq_refl))).
Defined.

(** ** Collecting photos *)

Lemma photo_handler_run (w : world) (path : pystr) :
  photo_handler (inr path) w =
  (inr Collecting,
   with_user_data w
     {| current_card := current_card (user_data w);
        field_to_update := field_to_update (user_data w);
        photos_received :=
          Some (match photos_received (user_data w) with
                | Some l => l ++ [path]
                | None => [path]
                end) |}).
Proof. reflexivity. Qed.

Lemma receive_photos_run (paths : list pystr) :
  forall w, paths <> [] ->
    receive_photos paths w =
    (inr tt,
     with_user_data w
       {| current_card := current_card (user_data w);
          field_to_update := field_to_update (user_data w);
          photos_received :=
            Some (match photos_received (user_data w) with
                  | Some l => l ++ paths
                  | None => paths
                  end) |}).
Proof.
  induction paths as [|p r IH]; intros w Hne; [congruence|].
  cbn [receive_photos]. unfold bind at 1. rewrite photo_handler_run.
  destruct r as [|q r].
  - reflexivity.
  - rewrite IH by discriminate.
    unfold with_user_data. cbn [user_data bot_current_card_id trace
                                current_card field_to_update photos_received].
    destruct (photos_received (user_data w));
      now rewrite <- ?app_assoc.
Qed.

(** X16: collecting and finishing.  Photos are kept in the order they
    arrive, after those already pending, and change nothing else; a photo
    whose file cannot be fetched is not added; and [/finish] hands the upload
    exactly that list, under the name of the card: its outcome is that of the
    upload of those paths. *)
Theorem photos_are_uploaded_in_order (env : Env) (w : world) c name text
        (paths : list pystr) :
  current_card (user_data w) = Some c ->
  get c (lit "name") = Some name ->
  info_message c = inr text ->
  paths <> [] ->
  let pending := match photos_received (user_data w) with
                 | Some l => l
                 | None => []
                 end in
  let w' := snd (receive_photos paths w) in
  photos_received (user_data w') = Some (pending ++ paths) /\
  current_card (user_data w') = Some c /\
  field_to_update (user_data w') = field_to_update (user_data w) /\
  trace w' = trace w /\
  (forall e, photo_handler (inl e) w = (inl e, w)) /\
  (forall ex,
      upload_photo env name (pending ++ paths) = inl ex ->
      user_data (snd (finish_photo env w')) = user_data w') /\
  (forall link,
      upload_photo env name (pending ++ paths) = inr link ->
      user_data (snd (finish_photo env w')) =
      {| current_card := Some (set c (lit "photos") (VStr link));
         field_to_update := field_to_update (user_data w);
         photos_received := Some [] |}).
Proof.
  intros Hc Hname Ht Hne pending w'. subst w'.
  rewrite (receive_photos_run w Hne). cbn [snd].
  set (w1 := with_user_data w _).
  assert (Hp : photos_received (user_data w1) = Some (pending ++ paths)).
  { subst w1 pending. cbn. now destruct (photos_received (user_data w)). }
  assert (Hc1 : current_card (user_data w1) = Some c) by exact Hc.
  split; [exact Hp|]. split; [exact Hc1|].
  split; [reflexivity|]. split; [reflexivity|]. split; [reflexivity|].
  split.
  - intros ex Hup.
    now rewrite (finish_photo_failure env w1 Hc1 Hp Hname Ht Hup).
  - intros link Hup.
    destruct (info_message_set c (lit "photos") (VStr link) Ht) as [text' Ht'].
    now rewrite (finish_photo_success env w1 Hc1 Hp Hname Hup Ht').
Qed.

Lemma photos_are_uploaded_in_order_witness :
  photos_received
    (user_data (snd (receive_photos [lit "photos/file_2.jpg"; lit "photos/file_3.jpg"]
                                    (session cafe)))) =
  Some ([lit "photos/file_1.jpg"] ++
        [lit "photos/file_2.jpg"; lit "photos/file_3.jpg"]).
Proof.
  refine (proj1 (@photos_are_uploaded_in_order
                   (env_with empty_sheet (inr (frame [])) (inr []))
                   (session cafe) cafe (VStr (lit "Cafe")) _
                   [lit "photos/file_2.jpg"; lit "photos/file_3.jpg"]
                   eq_refl eq_refl eq_refl _)).
  discriminate.
Defined.

(** X17: [/finish] before any photo.  With no pending list in the session
    the upload is not started: the missing key is caught by the [except] of
    the upload, so the user is told "Error while uploading photos, try again"
    and shown the card and the edit bar, whatever the Drive would have
    answered, and the session is unchanged. *)
Theorem finish_without_photos (env : Env) (w : world) c name text :
  current_card (user_data w) = Some c ->
  get c (lit "name") = Some name ->
  info_message c = inr text ->
  photos_received (user_data w) = None ->
  finish_photo env w =
  (inr END,
   traced w [SendMessage (lit "Initializing uploading process...") NoMarkup;
             LogError (KeyError (lit "photos_received"));
             SendMessage (lit "Error while uploading photos, try again") NoMarkup;
             SendMessage text NoMarkup;
             SendMessage (lit "Choose a field to edit:") EditBar]).
Proof.
  intros Hc Hname Ht Hp. unfold finish_photo, item.
  repeat (progress (run_monad; rewrite ?Hc, ?Hp, ?Hname, ?Ht)).
  unfold traced. cbn [user_data bot_current_card_id trace].
  repeat rewrite <- app_assoc. reflexivity.
Qed.

Lemma finish_without_photos_witness :
  fst (finish_photo (env_with empty_sheet (inr (frame [])) (inr (lit "link")))
                    (showing cafe)) = inr END.
Proof.
  rewrite (@finish_without_photos
             (env_with empty_sheet (inr (frame [])) (inr (lit "link")))
             (showing cafe) cafe (VStr (lit "Cafe")) _
             eq_refl eq_refl eq_refl eq_refl).
  reflexivity.
Defined.

(** ** Looking a record up *)

Lemma existsb_eqb_In (k : pystr) (l : list pystr) :
  existsb (PyStr.eqb k) l = true <-> In k l.
Proof.
  rewrite existsb_exists. split.
  - intros (x & Hx & E). apply pystr_eqb_eq in E. now subst.
  - intros H. exists k. split; [exact H | apply pystr_eqb_refl].
Qed.

Lemma not_found_spec (have : list pystr) (k : pystr) :
  In k (not_found have) <-> In k card_fields /\ ~ In k have.
Proof.
  unfold not_found. rewrite filter_In, negb_true_iff.
  rewrite <- (existsb_eqb_In k have).
  destruct (existsb (PyStr.eqb k) have); intuition congruence.
Qed.

Lemma select_columns_all (have : list pystr) (r : card) :
  (forall k, In k card_fields -> In k have) ->
  select_columns have r = inr (map (fun c => (c, cell r c)) card_fields).
Proof.
  intros H. unfold select_columns.
  destruct (not_found have) as [|k l] eqn:E; [reflexivity|].
  assert (Hk : In k (not_found have)) by (rewrite E; now left).
  apply not_found_spec in Hk. destruct Hk as [Hw Hn]. now destruct (Hn (H k Hw)).
Qed.


Lemma keys_set_In {V} (d : dict V) k' v k :
  In k (keys (set d k' v)) <-> In k (keys d) \/ k = k'.
Proof.
  rewrite <- !get_Some_keys.
  destruct (list_eq_dec N.eq_dec k k') as [->|N].
  - rewrite get_set_same. split; eauto.
  - rewrite get_set_other by exact N. tauto.
Qed.

Lemma keys_of_pairs_In {V} (pairs : list (pystr * V)) k :
  In k (keys (of_pairs pairs)) <-> In k (map fst pairs).
Proof.
  unfold of_pairs.
  assert (G : forall d0, In k (keys (fold_left
                (fun d kv => set d (fst kv) (snd kv)) pairs d0)) <->
              In k (keys d0) \/ In k (map fst pairs)).
  { induction pairs as [|[k' v'] r IH]; intros d0; cbn [fold_left map fst snd In].
    - tauto.
    - rewrite IH, keys_set_In. intuition congruence. }
  rewrite G. cbn. tauto.
Qed.





Lemma first_match_filter (name : pystr) (pre : list card) (r : card)
      (post : list card) :
  (forall r0, In r0 pre -> cell r0 (lit "name") <> VStr name) ->
  cell r (lit "name") = VStr name ->
  exists rest,
    filter (fun r => negb (pyval_neb (cell r (lit "name")) (VStr name)))
           (pre ++ r :: post) = r :: rest.
Proof.
  intros Hpre Hr. induction pre as [|p pre IH]; cbn [app filter].
  - replace (pyval_neb (cell r (lit "name")) (VStr name)) with false
      by (symmetry; now apply pyval_neb_false).
    cbn [negb]. eauto.
  - replace (pyval_neb (cell p (lit "name")) (VStr name)) with true
      by (symmetry; apply pyval_neb_true, Hpre; now left).
    cbn [negb]. apply IH. intros; apply Hpre; now right.
Qed.

(** X19: a name the frame has.  When the frame has the eight columns, the
    lookup returns the first row that bears the name, field by field, and
    reports that nothing was created; rows further down with the same name
    are never returned. *)
Theorem search_returns_first_match (df : DataFrame) (name : pystr)
        (pre : list card) (r : card) (post : list card) :
  (forall k, In k card_fields -> In k (columns df)) ->
  rows df = pre ++ r :: post ->
  (forall r0, In r0 pre -> cell r0 (lit "name") <> VStr name) ->
  cell r (lit "name") = VStr name ->
  search_name_in_df df name =
  inr (map (fun k => (k, cell r k)) card_fields, false).
Proof.
  intros Hcols Hrows Hpre Hr. unfold search_name_in_df.
  replace (existsb (PyStr.eqb (lit "name")) (columns df)) with true
    by (symmetry; apply existsb_eqb_In, Hcols; now left).
  cbn [negb]. rewrite Hrows.
  destruct (@first_match_filter name pre r post Hpre Hr) as [rest ->].
  now rewrite select_columns_all.
Qed.

Lemma search_returns_first_match_witness :
  search_name_in_df (frame [bar; cafe; cafe_without_id]) (lit "Cafe") =
  inr (map (fun k => (k, cell cafe k)) card_fields, false).
Proof.
  apply (@search_returns_first_match
           (frame [bar; cafe; cafe_without_id]) (lit "Cafe")
           [bar] cafe [cafe_without_id]).
  - intros k Hk. exact Hk.
  - reflexivity.
  - intros r0 [<-|[]]. discriminate.
  - reflexivity.
Defined.



(** ** Writing a record *)

Lemma existing_row_index_found (data : list card) (org_id : pystr) :
  forall start idx,
    existing_row_index data org_id start = Some idx <->
    exists pre row post,
      data = pre ++ row :: post /\ idx = start + length pre /\
      py_str (opt_val (get row (lit "ID"))) = org_id /\
      forall r, In r pre -> py_str (opt_val (get r (lit "ID"))) <> org_id.
Proof.
  induction data as [|row r IH]; intros start idx; cbn [existing_row_index].
  - split; [discriminate|]. intros (pre & ? & ? & H & _).
    destruct pre; discriminate.
  - destruct (PyStr.eqb (py_str (opt_val (get row (lit "ID")))) org_id) eqn:E.
    + apply pystr_eqb_eq in E. split.
      * intros [= <-]. exists [], row, r. cbn [app length In].
        repeat split; auto; try lia; tauto.
      * intros (pre & row' & post & Hd & -> & Hid & Hpre).
        destruct pre as [|p pre]; cbn in *.
        -- f_equal. lia.
        -- injection Hd as -> _. exfalso. apply (Hpre p); auto.
    + apply pystr_eqb_neq in E. rewrite IH. split.
      * intros (pre & row' & post & -> & -> & Hid & Hpre).
        exists (row :: pre), row', post. cbn [app length].
        repeat split; auto; try lia. intros x [<-|Hx]; auto.
      * intros (pre & row' & post & Hd & -> & Hid & Hpre).
        destruct pre as [|p pre]; cbn in Hd; injection Hd as -> ->.
        -- contradiction.
        -- exists pre, row', post. cbn [length]. repeat split; auto; try lia.
           intros x Hx. apply Hpre. now right.
Qed.

Lemma write_updates (sh : Worksheet) (organization : card) headers data idx
      current :
  row_values sh 1 = inr headers ->
  get_all_records sh = inr data ->
  existing_row_index data (py_str (opt_val (get organization (lit "ID")))) 2
    = Some idx ->
  row_values sh idx = inr current ->
  update sh (cell_range idx (length headers))
         (updated_values organization current 0 headers) = inr tt ->
  write_on_google_sheets sh organization =
  (ODict (zip_dict headers (map VStr current)),
   [SheetUpdate (cell_range idx (length headers))
                (updated_values organization current 0 headers)]).
Proof.
  intros Hh Hd Hi Hr Hu. unfold write_on_google_sheets, write_body.
  rewrite Hh, Hd, Hi.
  pose proof (existing_row_index_ge _ _ _ Hi) as G.
  destruct idx as [|idx]; [lia|]. now rewrite Hr, Hu.
Qed.

(** X21: which row a save writes.  The record is written over the first
    sheet record whose ID prints like its own, at sheet row [i + 2] for the
    record at position [i], and the old cells of that row come back as the
    prior snapshot; only when no record has that ID is the row placed under
    the last one.  A freshly created record is no exception: its ID depends
    only on the number of rows of the frame it was created from, and when
    the sheet already holds that ID the save overwrites that row. *)
Theorem save_overwrites_matching_row (sh : Worksheet) (organization : card)
        headers (pre : list card) (row : card) (post : list card) current :
  let org_id := py_str (opt_val (get organization (lit "ID"))) in
  let idx := 2 + length pre in
  row_values sh 1 = inr headers ->
  get_all_records sh = inr (pre ++ row :: post) ->
  py_str (opt_val (get row (lit "ID"))) = org_id ->
  (forall r, In r pre -> py_str (opt_val (get r (lit "ID"))) <> org_id) ->
  row_values sh idx = inr current ->
  update sh (cell_range idx (length headers))
         (updated_values organization current 0 headers) = inr tt ->
  write_on_google_sheets sh organization =
  (ODict (zip_dict headers (map VStr current)),
   [SheetUpdate (cell_range idx (length headers))
                (updated_values organization current 0 headers)]) /\
  idx < length (pre ++ row :: post) + 2 /\
  (forall df name df' name' c c',
      search_name_in_df df name = inr (c, true) ->
      search_name_in_df df' name' = inr (c', true) ->
      length (rows df) = length (rows df') ->
      get c (lit "ID") = get c' (lit "ID") /\
      get c (lit "ID") =
        Some (VStr (id_prefix ++ of_nat (length (rows df) + 310)))).
Proof.
  intros org_id idx Hh Hd Hid Hpre Hr Hu. split; [|split].
  - apply write_updates with (data := pre ++ row :: post); auto.
    apply existing_row_index_found. exists pre, row, post. auto.
  - rewrite length_app. cbn [length]. subst idx. lia.
  - intros df name df' name' c c' S S' L.
    destruct (search_name_in_df_result _ _ S) as [H _].
    destruct (search_name_in_df_result _ _ S') as [H' _].
    rewrite (H eq_refl), (H' eq_refl), L. split; reflexivity.
Qed.

Lemma save_overwrites_matching_row_witness :
  write_on_google_sheets cafe_sheet (cafe_with (lit "10-6") (lit "7")) =
  (ODict (zip_dict card_fields (map VStr cafe_cells)),
   [SheetUpdate (cell_range 2 8)
                (updated_values (cafe_with (lit "10-6") (lit "7")) cafe_cells 0
                                card_fields)]).
Proof.
  refine (proj1 (@save_overwrites_matching_row
                   cafe_sheet (cafe_with (lit "10-6") (lit "7")) card_fields
                   [] cafe_record [] cafe_cells
                   eq_refl eq_refl eq_refl _ eq_refl eq_refl)).
  intros r [].
Defined.

Lemma updated_values_nth (organization : card) (current : list pystr)
      (headers : list pystr) :
  forall start i h,
    nth_error headers i = Some h ->
    nth_error (updated_values organization current start headers) i =
    Some (match get organization h with
          | Some v => v
          | None => VStr (nth (start + i) current [])
          end).
Proof.
  induction headers as [|hd hs IH]; intros start [|i] h; cbn; try discriminate.
  - intros [= ->]. unfold get_default. now rewrite Nat.add_0_r.
  - intros H. rewrite (IH (S start) i h H).
    replace (S start + i) with (start + S i) by lia. reflexivity.
Qed.

Lemma updated_values_length (organization : card) (current : list pystr)
      (headers : list pystr) :
  forall start,
    length (updated_values organization current start headers) = length headers.
Proof. induction headers; intros; cbn; auto. Qed.

(** X22: what the update branch writes.  The row written has one value per
    header; under a header the record has, the record's value (also when it
    is [None]); under any other header, the cell the row already had there,
    so columns outside the card are kept, or the empty string when the row
    was shorter. *)
Theorem updated_values_keep_other_columns (organization : card)
        (current : list pystr) (headers : list pystr) :
  length (updated_values organization current 0 headers) = length headers /\
  (forall i h v,
      nth_error headers i = Some h -> get organization h = Some v ->
      nth_error (updated_values organization current 0 headers) i = Some v) /\
  (forall i h cell_text,
      nth_error headers i = Some h -> get organization h = None ->
      nth_error current i = Some cell_text ->
      nth_error (updated_values organization current 0 headers) i =
      Some (VStr cell_text)) /\
  (forall i h,
      nth_error headers i = Some h -> get organization h = None ->
      length current <= i ->
      nth_error (updated_values organization current 0 headers) i =
      Some (VStr [])).
Proof.
  split; [apply updated_values_length|].
  split; [|split].
  - intros i h v Hh Hg. rewrite (updated_values_nth _ _ _ 0 _ Hh). now rewrite Hg.
  - intros i h t Hh Hg Hc. rewrite (updated_values_nth _ _ _ 0 _ Hh), Hg.
    cbn [Nat.add]. do 2 f_equal. now apply nth_error_nth.
  - intros i h Hh Hg Hl. rewrite (updated_values_nth _ _ _ 0 _ Hh), Hg.
    cbn [Nat.add]. do 2 f_equal. now apply nth_overflow.
Qed.

Lemma combine_fst_In {A B} (l : list A) (l' : list B) a :
  In a (map fst (combine l l')) ->
  exists i, i < length l' /\ nth_error l i = Some a.
Proof.
  revert l'. induction l as [|x l IH]; intros [|y l']; cbn; try tauto.
  intros [<-|H].
  - exists 0. split; [lia|reflexivity].
  - destruct (IH l' H) as (i & Hi & Hn). exists (S i). split; [lia|exact Hn].
Qed.

Lemma NoDup_nth_error_inj {A} (l : list A) i j a :
  NoDup l -> nth_error l i = Some a -> nth_error l j = Some a -> i = j.
Proof.
  intros ND Hi Hj. apply (proj1 (NoDup_nth_error l) ND); [|congruence].
  apply nth_error_Some. congruence.
Qed.

Lemma get_fold_notin {V} (pairs : list (pystr * V)) (k : pystr) :
  ~ In k (map fst pairs) ->
  forall d0 : dict V,
    get (fold_left (fun d kv => set d (fst kv) (snd kv)) pairs d0) k = get d0 k.
Proof.
  induction pairs as [|[k' v'] r IH]; intros Hn d0; [reflexivity|].
  cbn [fold_left fst snd]. cbn [map fst In] in Hn.
  rewrite IH by tauto. apply get_set_other. intros ->. tauto.
Qed.

Lemma get_fold_pair {V} (pairs : list (pystr * V)) (k : pystr) (v : V) :
  NoDup (map fst pairs) -> In (k, v) pairs ->
  forall d0 : dict V,
    get (fold_left (fun d kv => set d (fst kv) (snd kv)) pairs d0) k = Some v.
Proof.
  induction pairs as [|[k' v'] r IH]; intros ND Hin d0; [destruct Hin|].
  cbn [fold_left fst snd]. cbn [map fst] in ND.
  inversion ND as [|? ? Hn NDr]; subst.
  destruct Hin as [E|Hin].
  - injection E as -> ->. rewrite get_fold_notin by exact Hn.
    apply get_set_same.
  - now apply IH.
Qed.

Lemma NoDup_combine_fst {B} (l : list pystr) (l' : list B) :
  NoDup l -> NoDup (map fst (combine l l')).
Proof.
  revert l'. induction l as [|x l IHl]; intros [|y l'] NDl; cbn;
    try constructor; inversion NDl; subst.
  - intros H. apply combine_fst_In in H.
    destruct H as (j & _ & Hj). apply nth_error_In in Hj. contradiction.
  - now apply IHl.
Qed.

Lemma get_combine_nth (headers : list pystr) (vals : list pyval) :
  NoDup headers ->
  forall i h v,
    nth_error headers i = Some h -> nth_error vals i = Some v ->
    get (zip_dict headers vals) h = Some v.
Proof.
  unfold zip_dict, of_pairs. intros ND i h v Hh Hv.
  apply get_fold_pair.
  - now apply NoDup_combine_fst.
  - revert i vals Hh Hv. clear ND.
    induction headers as [|x l IHl]; intros [|i] [|y l'] Hh Hv;
      cbn in *; try discriminate.
    + left. congruence.
    + right. eapply IHl; eauto.
Qed.

Lemma diff_loop_keys (payload old_payload : card) (h : pystr)
      (todo : list pystr) :
  forall acc s,
    In h (keys (fst (diff_loop todo payload old_payload acc s))) ->
    In h (keys acc) \/ exists o, get old_payload h = Some o.
Proof.
  induction todo as [|k r IH]; intros acc s; cbn [diff_loop]; [now left|].
  destruct (get old_payload k) as [o|] eqn:Eo; [|apply IH].
  destruct (pyval_neb _ o); [|apply IH].
  intros H. apply IH in H. destruct H as [H|H]; [|now right].
  apply keys_set_In in H. destruct H as [H| ->]; [now left|right; eauto].
Qed.

Lemma get_combine_beyond (headers : list pystr) (vals : list pyval) i h :
  NoDup headers -> nth_error headers i = Some h -> length vals <= i ->
  get (zip_dict headers vals) h = None.
Proof.
  intros ND Hh Hl. apply get_None_keys. unfold zip_dict.
  rewrite keys_of_pairs_In. intros H. apply combine_fst_In in H.
  destruct H as (j & Hj & Hn).
  pose proof (NoDup_nth_error_inj _ _ ND Hh Hn). lia.
Qed.

(** X23: the prior snapshot of an updated row.  With distinct headers, the
    snapshot gives under each header the cell that stood in that column; a
    header beyond the end of the row read (a row ends at its last filled
    cell) is absent from the snapshot, and a field that is absent from it
    never appears in the change set, whatever the record now holds for it. *)
Theorem snapshot_of_updated_row (headers current : list pystr) :
  NoDup headers ->
  (forall i h cell_text,
      nth_error headers i = Some h -> nth_error current i = Some cell_text ->
      get (zip_dict headers (map VStr current)) h = Some (VStr cell_text)) /\
  (forall i h,
      nth_error headers i = Some h -> length current <= i ->
      get (zip_dict headers (map VStr current)) h = None /\
      forall payload,
        ~ In h (keys (payload_changes payload
                        (zip_dict headers (map VStr current))))).
Proof.
  intros ND. split.
  - intros i h t Hh Hc. eapply get_combine_nth; [exact ND | exact Hh |].
    now rewrite nth_error_map, Hc.
  - intros i h Hh Hl.
    assert (G : get (zip_dict headers (map VStr current)) h = None)
      by (eapply get_combine_beyond; [exact ND | exact Hh |];
          now rewrite length_map).
    split; [exact G|]. intros payload H. unfold payload_changes in H.
    apply diff_loop_keys in H. destruct H as [[]|[o Ho]]. congruence.
Qed.

Lemma snapshot_of_updated_row_witness :
  get (zip_dict card_fields (map VStr [lit "Cafe"; lit "Services"]))
      (lit "hours_of_operation") = None.
Proof.
  assert (ND : NoDup card_fields).
  { repeat constructor; cbn; intuition discriminate. }
  refine (proj1 (proj2 (@snapshot_of_updated_row
                          card_fields [lit "Cafe"; lit "Services"] ND)
                       6 (lit "hours_of_operation") eq_refl _)).
  cbn. lia.
Defined.

(** ** Blob upload adapter *)

Module DriveFacts.
Import Drive.


Lemma upload_each_stops (api : DriveApi) (folder_id : pyval)
      (pre : list pystr) (url : pystr) (rest : list pystr) (e : exn) :
  (forall u, In u pre -> goes_through api folder_id u) ->
  open_media api url = inl e ->
  upload_each api folder_id (pre ++ url :: rest) =
  (inl e, flat_map (photo_calls folder_id) pre ++ [Retrieve url; OpenMedia url]).
Proof.
  induction pre as [|p pre IH]; intros H Ho.
  - cbn [app upload_each flat_map]. unfold upload_foto_in_spec_folder.
    unfold dbind at 3. now rewrite Ho.
  - destruct (H p (or_introl eq_refl)) as (Hop & Hr & Hc).
    cbn [app upload_each flat_map]. unfold upload_foto_in_spec_folder.
    unfold dbind at 3. rewrite Hop. cbv beta iota zeta.
    rewrite IH by (try exact Ho; intros; apply H; now right). rewrite Hr.
    destruct (create_file api folder_id p) as [v| |e']; [| |now destruct (Hc e')];
      reflexivity.
Qed.


Lemma search_pages_calls pages folder_name c :
  In c (snd (search_pages pages folder_name)) -> c = ListFolders.
Proof.
  induction pages as [|[files| |e] later IH]; cbn [search_pages].
  - intros [].
  - destruct (first_named files folder_name).
    + intros [<-|[]]. reflexivity.
    + destruct (search_pages later folder_name) as [r calls].
      cbn [snd] in *. intros [<-|H]; auto.
  - intros [<-|[]]. reflexivity.
  - intros [<-|[]]. reflexivity.
Qed.

Lemma upload_each_calls api folder_id links c :
  In c (snd (upload_each api folder_id links)) ->
  forall n, c <> CreateFolder n.
Proof.
  induction links as [|url rest IH]; cbn [upload_each]; [intros []|].
  unfold upload_foto_in_spec_folder, dbind, guarded.
  destruct (open_media api url) as [e|[]];
    [cbn; intros [<-|[<-|[]]]; discriminate|].
  destruct (upload_each api folder_id rest) as [r calls]. cbn [snd] in IH.
  destruct (create_file api folder_id url) as [v| |e];
    destruct (remove api url) as [e'|[]]; cbn;
    intuition (try discriminate; subst; try discriminate; eauto).
Qed.

Lemma with_folder_facts api folder_id links :
  (forall c, In c (snd (with_folder api folder_id links)) ->
             forall n, c <> CreateFolder n) /\
  (forall link, fst (with_folder api folder_id links) = inr link ->
                link = folder_link folder_id).
Proof.
  unfold with_folder, make_public_folder, dbind, dret.
  pose proof (upload_each_calls api folder_id links) as U.
  destruct (upload_each api folder_id links) as [[e|[]] calls]; cbn [snd] in U;
    destruct (permit api folder_id) as [[]| |e']; cbn;
    split; try discriminate; try (intros link [= <-]; reflexivity);
    intros c H n; rewrite ?app_nil_r in H;
    (destruct H as [<-|H]; [discriminate|]); try (now apply U); destruct H.
Qed.

Lemma dbind_ret_calls {A B} (a : A) (calls : list drive_call) (k : A -> D B) :
  dbind (inr a, calls) k = (fst (k a), calls ++ snd (k a)).
Proof. unfold dbind. now destruct (k a). Qed.

(** X24: search or create.  When the search gives a usable folder id, no
    folder is created and the link returned is that of the folder found.
    When it gives none (no folder of that name in the pages read, an
    [HttpError] while listing, or an empty id), exactly one folder is created,
    right after the listing, and the link is that of what the creation
    returned, which is [None] when the creation raised [HttpError].  An
    exception of the listing other than [HttpError] leaves the adapter at
    once. *)
Theorem upload_photo_search_or_create (api : DriveApi) (folder_name : pyval)
        (links : list pystr) :
  let run := upload_photo api folder_name links in
  (forall e calls,
      search_folder api folder_name = (inl e, calls) -> run = (inl e, calls)) /\
  (forall found calls,
      search_folder api folder_name = (inr found, calls) ->
      truthy found = true ->
      run = (fst (with_folder api found links),
             calls ++ snd (with_folder api found links)) /\
      (forall c, In c (snd run) -> forall n, c <> CreateFolder n) /\
      (forall link, fst run = inr link -> link = folder_link found)) /\
  (forall found calls,
      search_folder api folder_name = (inr found, calls) ->
      truthy found = false ->
      (forall created,
          create api folder_name = Returned created ->
          run = (fst (with_folder api created links),
                 calls ++ CreateFolder folder_name ::
                 snd (with_folder api created links)) /\
          (forall link, fst run = inr link -> link = folder_link created)) /\
      (create api folder_name = HttpError ->
       run = (fst (with_folder api VNone links),
              calls ++ CreateFolder folder_name ::
              snd (with_folder api VNone links)) /\
       (forall link, fst run = inr link ->
                     link = lit "https://drive.google.com/drive/folders/None?usp=drive_link")) /\
      (forall e,
          create api folder_name = Raised e ->
          run = (inl e, calls ++ [CreateFolder folder_name]))).
Proof.
  cbv zeta. unfold upload_photo. split; [|split].
  - intros e calls ->. reflexivity.
  - intros found calls S T.
    pose proof (fun c => search_pages_calls (folder_pages api) folder_name c)
      as SC.
    unfold search_folder in S. rewrite S in SC. cbn [snd] in SC.
    unfold search_folder. rewrite S, dbind_ret_calls, T.
    unfold dret. rewrite dbind_ret_calls. cbn [app].
    destruct (with_folder_facts api found links) as [F1 F2].
    split; [reflexivity|]. cbn [fst snd]. split; [|exact F2].
    intros c H n. apply in_app_or in H. destruct H as [H|H].
    + rewrite (SC c H). discriminate.
    + now apply F1.
  - intros found calls -> T. rewrite dbind_ret_calls, T.
    unfold create_folder, guarded. split; [|split].
    + intros created ->. rewrite dbind_ret_calls. cbn [app fst snd].
      split; [reflexivity|]. apply with_folder_facts.
    + intros ->. rewrite dbind_ret_calls. cbn [app fst snd].
      split; [reflexivity|]. intros link H.
      apply (with_folder_facts api VNone links) in H. now subst.
    + intros e ->. reflexivity.
Qed.

Lemma first_named_spec (files : list folder_entry) (folder_name ident : pyval) :
  first_named files folder_name = Some ident <->
  exists before f after,
    files = before ++ f :: after /\ entry_name f = folder_name /\
    entry_id f = ident /\
    forall g, In g before -> entry_name g <> folder_name.
Proof.
  induction files as [|f rest IH]; cbn [first_named].
  - split; [discriminate|]. intros (b & ? & ? & H & _). destruct b; discriminate.
  - destruct (pyval_neb (entry_name f) folder_name) eqn:E.
    + apply pyval_neb_true in E. rewrite IH. split.
      * intros (b & g & a & -> & H1 & H2 & H3).
        exists (f :: b), g, a. repeat split; auto.
        intros x [<-|Hx]; auto.
      * intros (b & g & a & Hf & H1 & H2 & H3).
        destruct b as [|b0 b]; cbn in Hf; injection Hf as -> ->.
        -- contradiction.
        -- exists b, g, a. repeat split; auto. intros x Hx. apply H3. now right.
    + apply pyval_neb_false in E. split.
      * intros [= <-]. exists [], f, rest. repeat split; auto.
      * intros (b & g & a & Hf & H1 & H2 & H3).
        destruct b as [|b0 b]; cbn in Hf; injection Hf as -> ->.
        -- now subst.
        -- exfalso. apply (H3 b0); [now left | exact E].
Qed.

Lemma search_pages_skip (pre : list (list folder_entry)) later folder_name :
  (forall files, In files pre -> first_named files folder_name = None) ->
  search_pages (map Returned pre ++ later) folder_name =
  (fst (search_pages later folder_name),
   repeat ListFolders (length pre) ++ snd (search_pages later folder_name)).
Proof.
  induction pre as [|files pre IH]; intros H; cbn [map app search_pages].
  - now destruct (search_pages later folder_name).
  - rewrite (H files (or_introl eq_refl)).
    rewrite IH by (intros; apply H; now right). reflexivity.
Qed.

(** X25: what the search finds.  The pages of the listing are read in
    order and, within a page, the entries in order: the id returned is that
    of the first folder bearing the name.  A page that raises [HttpError]
    ends the search without a folder, whatever the later pages hold, and so
    does the end of the listing. *)
Theorem search_folder_first_in_listing (api : DriveApi) (folder_name : pyval)
        (pre : list (list folder_entry)) :
  (forall files, In files pre -> first_named files folder_name = None) ->
  (forall before f after later,
      folder_pages api = map Returned pre ++ Returned (before ++ f :: after) :: later ->
      (forall g, In g before -> entry_name g <> folder_name) ->
      entry_name f = folder_name ->
      search_folder api folder_name =
      (inr (entry_id f), repeat ListFolders (length pre) ++ [ListFolders])) /\
  (forall later,
      folder_pages api = map Returned pre ++ HttpError :: later ->
      search_folder api folder_name =
      (inr VNone, repeat ListFolders (length pre) ++ [ListFolders])) /\
  (folder_pages api = map Returned pre ->
   search_folder api folder_name = (inr VNone, repeat ListFolders (length pre))).
Proof.
  intros Hpre. unfold search_folder. split; [|split].
  - intros before f after later -> Hb Hf.
    rewrite search_pages_skip by exact Hpre. cbn [search_pages].
    replace (first_named (before ++ f :: after) folder_name)
      with (Some (entry_id f)); [reflexivity|].
    symmetry. apply first_named_spec. exists before, f, after. auto.
  - intros later ->. now rewrite search_pages_skip by exact Hpre.
  - intros ->. rewrite <- (app_nil_r (map Returned pre)).
    rewrite search_pages_skip by exact Hpre. cbn. now rewrite app_nil_r.
Qed.

Lemma search_folder_first_in_listing_witness :
  search_folder interrupted_drive (VStr (lit "Cafe")) =
  (inr VNone, [ListFolders; ListFolders]).
Proof.
  refine (proj1 (proj2 (@search_folder_first_in_listing
                          interrupted_drive (VStr (lit "Cafe")) [[]] _))
                _ eq_refl).
  intros files [<-|[]]. reflexivity.
Defined.

Lemma make_public_folder_returns (api : DriveApi) (folder_id : pyval) :
  (forall ex, permit api folder_id <> Raised ex) ->
  make_public_folder api folder_id = (inr tt, [Permit folder_id]).
Proof.
  intros H. unfold make_public_folder.
  destruct (permit api folder_id) as [[]| |ex]; [reflexivity|reflexivity|].
  now destruct (H ex).
Qed.



(** X27: a photo whose file cannot be opened.  With a usable folder, the
    photos before it are uploaded and removed, the exception of the opening
    leaves the adapter, and no call is made for the photos after it;
    [/finish] then reports the error and leaves the session as it was, the
    whole pending list included. *)
Theorem unopened_photo_stops_upload (api : DriveApi) (e : Env) (w : world)
        c name text (pre : list pystr) (url : pystr) (rest : list pystr)
        found calls ex :
  current_card (user_data w) = Some c ->
  photos_received (user_data w) = Some (pre ++ url :: rest) ->
  get c (lit "name") = Some name ->
  info_message c = inr text ->
  search_folder api name = (inr found, calls) ->
  truthy found = true ->
  (forall x, permit api found <> Raised x) ->
  (forall u, In u pre -> goes_through api found u) ->
  open_media api url = inl ex ->
  upload_photo api name (pre ++ url :: rest) =
  (inl ex,
   calls ++ Permit found :: flat_map (photo_calls found) pre
         ++ [Retrieve url; OpenMedia url]) /\
  finish_photo (env_over api e) w =
  (inr END,
   traced w [SendMessage (lit "Initializing uploading process...") NoMarkup;
             LogError ex;
             SendMessage (lit "Error while uploading photos, try again") NoMarkup;
             SendMessage text NoMarkup;
             SendMessage (lit "Choose a field to edit:") EditBar]) /\
  user_data (snd (finish_photo (env_over api e) w)) = user_data w.
Proof.
  intros Hc Hl Hn Ht Hs Hf Hp Hg Ho.
  assert (U : upload_photo api name (pre ++ url :: rest) =
              (inl ex, calls ++ Permit found :: flat_map (photo_calls found) pre
                             ++ [Retrieve url; OpenMedia url])).
  { unfold upload_photo. rewrite Hs, dbind_ret_calls, Hf.
    unfold dret. rewrite dbind_ret_calls.
    unfold with_folder. rewrite (@make_public_folder_returns api found Hp).
    rewrite dbind_ret_calls, (@upload_each_stops api found pre url rest ex Hg Ho).
    reflexivity. }
  split; [exact U|].
  assert (F : finish_photo (env_over api e) w = _)
    by (apply (@finish_photo_failure (env_over api e) w c _ name text Hc Hl Hn Ht ex);
        cbn [env_over Bot.upload_photo]; now rewrite U).
  split; [exact F|]. now rewrite F.
Qed.

Lemma unopened_photo_stops_upload_witness :
  fst (upload_photo
         {| folder_pages := [Returned [{| entry_name := VStr (lit "Cafe");
                                          entry_id := VStr (lit "f1") |}]];
            create := create interrupted_drive;
            permit := permit interrupted_drive;
            open_media := open_media interrupted_drive;
            create_file := create_file interrupted_drive;
            remove := remove interrupted_drive |}
         (VStr (lit "Cafe"))
         ([lit "photos/file_1.jpg"] ++ lit "photos/file_2.jpg" :: [])) =
  inl (ClientError (lit "FileNotFoundError")).
Proof.
  refine (f_equal fst (proj1 (@unopened_photo_stops_upload
    {| folder_pages := [Returned [{| entry_name := VStr (lit "Cafe");
                                     entry_id := VStr (lit "f1") |}]];
       create := create interrupted_drive;
       permit := permit interrupted_drive;
       open_media := open_media interrupted_drive;
       create_file := create_file interrupted_drive;
       remove := remove interrupted_drive |}
    (env_with empty_sheet (inr (frame [])) (inr []))
    {| user_data := {| current_card := Some cafe;
                       field_to_update := None;
                       photos_received :=
                         Some ([lit "photos/file_1.jpg"]
                                 ++ lit "photos/file_2.jpg" :: []) |};
       bot_current_card_id := None; trace := [] |}
    cafe (VStr (lit "Cafe")) _ [lit "photos/file_1.jpg"]
    (lit "photos/file_2.jpg") [] (VStr (lit "f1")) [ListFolders]
    (ClientError (lit "FileNotFoundError"))
    eq_refl eq_refl eq_refl eq_refl eq_refl eq_refl _ _ eq_refl))).
  - intros x. discriminate.
  - intros u [<-|[]]. repeat split. intros x. discriminate.
Defined.

End DriveFacts.

(** ** Start, and replies while editing *)

(** X28: [/start] answers with the menu exactly when the sender's id is in
    [id_list], with the authorization notice (and a warning in the log)
    otherwise, and in both cases leaves the session as it is: a card being
    edited and its pending changes survive a [/start]. *)
Theorem start_keeps_session (env : Env) (u : User) (w : world) :
  (In (id u) (id_list env) ->
   start env u w =
   (inr tt, traced w [SendMessage (lit "Hi! Choose an action:") MainMenu])) /\
  (~ In (id u) (id_list env) ->
   start env u w =
   (inr tt, traced w [SendMessage (lit "Your ID is not authorized") NoMarkup;
                      LogWarning (lit "Unauthorized ID: " ++ of_Z (id u))])) /\
  user_data (snd (start env u w)) = user_data w.
Proof.
  rewrite start_run.
  assert (E : existsb (Z.eqb (id u)) (id_list env) = true <->
              In (id u) (id_list env)).
  { rewrite existsb_exists. split.
    - intros (x & Hx & Hq). apply Z.eqb_eq in Hq. now subst.
    - intros H. exists (id u). split; [exact H | apply Z.eqb_refl]. }
  destruct (existsb (Z.eqb (id u)) (id_list env)).
  - repeat split. intros H. exfalso. apply H, E. reflexivity.
  - repeat split. intros H. apply E in H. discriminate.
Qed.

(** X29: a reply is never a value.  While a card is in the session, a text
    message that is a reply and is neither Exit nor Save never reaches
    [handle_new_value]: the [start] command apart, which only answers, it
    goes to [handle_company_name], which keeps the card.  Either way the
    session is unchanged, so a value sent as a reply to the prompt is not
    stored and the field goes on awaiting it. *)
Theorem reply_is_never_a_value (env : Env) (u : User) (cv : conv)
        (m : text_message) (w : world) c :
  current_card (user_data w) = Some c ->
  is_reply m = true ->
  route_text cv m <> Some ToExit -> route_text cv m <> Some ToSave ->
  user_data (snd (on_text env u cv m w)) = user_data w /\
  route_text cv m <> Some ToNewValue /\
  route_text cv m <> Some ToFinish /\
  (route_text cv m = Some ToStart -> on_text env u cv m w = start env u w) /\
  (text m <> [] -> route_text cv m <> Some ToStart ->
   on_text env u cv m w = handle_company_name env (text m) w).
Proof.
  intros Hc Hr HE HS. unfold on_text.
  unfold route_text in *. rewrite Hr in *.
  destruct (text m) as [|a r] eqn:T.
  { repeat split; try discriminate; congruence. }
  destruct (is_the_command (lit "start") m).
  { rewrite start_run. repeat split; try discriminate; congruence. }
  destruct (regex_word (lit "Exit") (a :: r)); [congruence|].
  destruct (regex_word (lit "Save") (a :: r)); [congruence|].
  repeat split; try discriminate.
  now apply (handle_company_name_frame env (a :: r) w Hc).
Qed.

Lemma reply_is_never_a_value_witness :
  user_data (snd (on_text (env_with empty_sheet (inr (frame [cafe])) (inr []))
                          manager END
                          {| text := lit "Cafe Luna"; is_reply := true;
                             entity := Plain |}
                          (editing cafe (lit "name")))) =
  user_data (editing cafe (lit "name")).
Proof.
  refine (proj1 (@reply_is_never_a_value
                   (env_with empty_sheet (inr (frame [cafe])) (inr []))
                   manager END
                   {| text := lit "Cafe Luna"; is_reply := true;
                      entity := Plain |}
                   (editing cafe (lit "name")) cafe eq_refl eq_refl _ _));
    discriminate.
Defined.

Lemma handle_new_value_always_answers_witness :
  fst (handle_new_value (lit "9-5") idle) = inr tt.
Proof.
  exact (proj1 (@handle_new_value_always_answers (lit "9-5") idle eq_refl)).
Defined.
